(** * Mainflux MQTT adapter: topic translation, authorization and bridging

    A shallow embedding of [mqtt/mqtt.js] (the aedes hooks, the NATS
    subscription handler and the connection-event publisher) and of the
    NATS publisher of the WebSocket adapter (package [nats], with its
    [gobreaker] settings), together with the properties the specification
    states about them.

    JavaScript strings are modelled by [string]: one [ascii] per code unit,
    so the development covers topics whose code units are below 256.  The
    asynchronous callbacks ([onAuthorize], [onIdentify]) are modelled by
    explicit continuation: a handler takes the answer of the remote service
    as an argument and returns the list of effects it performs, in order. *)

From Stdlib Require Import Strings.String Strings.Ascii List Bool Arith ZArith Lia.
From Stdlib Require Import Floats.SpecFloat.
Import ListNotations.
Open Scope string_scope.

(** ** JavaScript string primitives *)

Module JsString.

(** [s.split(sep)] for a one-character separator: never the empty array. *)
Fixpoint split (sep : ascii) (s : string) : list string :=
  match s with
  | EmptyString => [EmptyString]
  | String c s' =>
      if Ascii.eqb c sep then EmptyString :: split sep s'
      else match split sep s' with
           | x :: xs => String c x :: xs
           | [] => [String c EmptyString]
           end
  end.

(** [a.join(sep)]. *)
Definition join (sep : string) (a : list string) : string :=
  String.concat sep a.

(** [a.slice(n)]. *)
Definition slice {A : Type} (n : nat) (a : list A) : list A := skipn n a.

(** [s.includes(c)] for a one-character needle. *)
Fixpoint includes (c : ascii) (s : string) : bool :=
  match s with
  | EmptyString => false
  | String d s' => Ascii.eqb d c || includes c s'
  end.

(** [s.replace(/c/g, d)] for a one-character pattern and replacement. *)
Fixpoint replaceAll (c d : ascii) (s : string) : string :=
  match s with
  | EmptyString => EmptyString
  | String x s' => String (if Ascii.eqb x c then d else x) (replaceAll c d s')
  end.

(** [s !== ''] *)
Definition nonEmpty (s : string) : bool :=
  match s with EmptyString => false | _ => true end.

End JsString.

(** ** A backtracking matcher for the regular expressions of the adapter

    The fragment is what [parseTopic] needs: literal characters, the dot
    (any code unit but a line terminator), a greedy [?] and [*], a lazy
    [+?], one capture group and the end-of-input anchor.  A pattern is a
    sequence of nodes; alternatives are tried in the order the ECMAScript
    matcher tries them (greedy: longest first, lazy: shortest first), and
    the first complete match wins. *)

Module Regex.

Inductive atom : Type :=
| Lit (c : ascii)
| Dot.

Inductive node : Type :=
| One (a : atom)        (* a   *)
| OptG (a : atom)       (* a?  *)
| StarG (a : atom)      (* a*  *)
| PlusL (a : atom)      (* a+? *)
| GOpen                 (* (   *)
| GClose                (* )   *)
| Eoi.                  (* $   *)

Definition regex := list node.

Definition LF : ascii := ascii_of_nat 10.
Definition CR : ascii := ascii_of_nat 13.

(** Line terminators among the code units below 256. *)
Definition isLineTerminator (c : ascii) : bool :=
  Ascii.eqb c LF || Ascii.eqb c CR.

Definition matchAtom (a : atom) (c : ascii) : bool :=
  match a with
  | Lit d => Ascii.eqb c d
  | Dot => negb (isLineTerminator c)
  end.

(** State of capture group 1. *)
Inductive capture : Type :=
| Unset
| Recording (acc : string)
| Captured (s : string).

Definition record (c : ascii) (g : capture) : capture :=
  match g with
  | Recording acc => Recording (acc ++ String c EmptyString)
  | _ => g
  end.

Definition orElse {A : Type} (x y : option A) : option A :=
  match x with Some _ => x | None => y end.

Section Quantifiers.
Variable a : atom.
Variable k : capture -> string -> option capture.

(** [a*] followed by [k]: consume while possible, back off on failure. *)
Fixpoint starG (g : capture) (s : string) : option capture :=
  match s with
  | String c s' =>
      if matchAtom a c then orElse (starG (record c g) s') (k g s)
      else k g s
  | EmptyString => k g s
  end.

(** [a+?] followed by [k]: one [a], then [k] as early as possible. *)
Fixpoint plusL (g : capture) (s : string) : option capture :=
  match s with
  | String c s' =>
      if matchAtom a c
      then orElse (k (record c g) s') (plusL (record c g) s')
      else None
  | EmptyString => None
  end.
End Quantifiers.

(** Match [r] against the whole of what is left of the input. *)
Fixpoint run (r : regex) : capture -> string -> option capture :=
  match r with
  | [] => fun g _ => Some g
  | One a :: r' => fun g s =>
      match s with
      | String c s' => if matchAtom a c then run r' (record c g) s' else None
      | EmptyString => None
      end
  | OptG a :: r' => fun g s =>
      match s with
      | String c s' =>
          if matchAtom a c then orElse (run r' (record c g) s') (run r' g s)
          else run r' g s
      | EmptyString => run r' g s
      end
  | StarG a :: r' => starG a (run r')
  | PlusL a :: r' => plusL a (run r')
  | GOpen :: r' => fun _ s => run r' (Recording EmptyString) s
  | GClose :: r' => fun g s =>
      match g with
      | Recording acc => run r' (Captured acc) s
      | _ => run r' g s
      end
  | Eoi :: r' => fun g s =>
      match s with
      | EmptyString => run r' g s
      | String _ _ => None
      end
  end.

Fixpoint lits (s : string) : regex :=
  match s with
  | EmptyString => []
  | String c s' => One (Lit c) :: lits s'
  end.

(** [/^r/.exec(s)], reduced to capture group 1: a pattern that starts
    with [^] (and has no [m] flag) can only match at index 0.  A group
    that took no part in the match reads as the empty string. *)
Definition execAnchored (r : regex) (s : string) : option string :=
  match run r Unset s with
  | Some (Captured x) => Some x
  | Some _ => Some EmptyString
  | None => None
  end.

End Regex.

(** ** The MQTT adapter ([mqtt/mqtt.js]) *)

Module Mqtt.
Import JsString Regex.

Definition bytes := list Byte.byte.

(** The fields of [config] that the handlers read. *)
Record Config : Type := mkConfig {
  instance_id : string;
  event_stream : string
}.

(** [message.RawMessage]: the record handed to [encode] and returned by
    [decode]; the protobuf codec itself is library code. *)
Record RawMessage : Type := mkRawMessage {
  publisher : string;
  channel : string;
  subtopic : string;
  protocol : string;
  payload : bytes
}.

(** An MQTT packet as aedes passes it to the hooks and to [aedes.publish]. *)
Record Packet : Type := mkPacket {
  cmd : string;
  qos : Z;
  topic : string;
  packetPayload : bytes;
  retain : bool
}.

(** The properties of an aedes client that the hooks read and write;
    [password] is [None] for JavaScript's [null]. *)
Record Client : Type := mkClient {
  id : string;
  thingId : string;
  password : option string
}.

Record AccessReq : Type := mkAccessReq {
  token : option string;
  chanID : string
}.

(** Answer of a gRPC call, as the pair [(err, res)] given to the callback. *)
Inductive RpcResult : Type :=
| RpcOk (value : string)
| RpcErr (message : string).

Inductive RedisArg : Type :=
| RStr (s : string)
| RNum (n : Z).

(** What a handler does to the outside world, in program order. *)
Inductive Effect : Type :=
| LogInfo (fmt : string) (args : list string)
| LogWarn (fmt : string) (args : list string)
| ThingsCanAccess (req : AccessReq)
| ThingsIdentify (identity : string)
| NatsPublish (subject : string) (rawMsg : RawMessage)
| PublishDone (code : Z)
| SubscribeDone (code : option Z) (packet : Packet)
| Acknowledge (err : option string) (ok : bool)
| EsXadd (stream entry : string) (fields : list RedisArg)
| AedesPublish (packet : Packet).

(** [/^channels\/(.+?)\/messages\/?.*$/] *)
Definition topicRegex : regex :=
  (lits "channels/" ++ [GOpen; PlusL Dot; GClose] ++ lits "/messages"
     ++ [OptG (Lit "/"); StarG Dot; Eoi])%list.

(** [parseTopic]: [None] for a failed match, else capture group 1. *)
Definition parseTopic (topic : string) : option string :=
  execAnchored topicRegex topic.

Definition baseLength : nat := 3.

(** The callback the source names [isEmpty]; it keeps what is not [''] *)
Definition isEmpty (value : string) : bool := nonEmpty value.

(** [packet.topic.split('/').slice(baseLength).join('.').split('.').filter(isEmpty)] *)
Definition elementsOf (topic : string) : list string :=
  filter isEmpty (split "." (join "." (slice baseLength (split "/" topic)))).

(** The test of the [for] loop of [authorizePublish]. *)
Definition invalidElement (e : string) : bool :=
  Nat.ltb 1 (String.length e) && (includes "*" e || includes ">" e).

Definition channelTopicOf (channelId : string) (elements : list string) : string :=
  let baseTopic := "channel." ++ channelId in
  match elements with
  | [] => baseTopic
  | _ :: _ => baseTopic ++ "." ++ join "." elements
  end.

Definition onAuthorize (client : Client) (packet : Packet)
    (channelId : string) (elements : list string) (channelTopic : string)
    (answer : RpcResult) : list Effect :=
  match answer with
  | RpcOk _ =>
      [ LogInfo "authorized publish" [];
        NatsPublish channelTopic
          {| publisher := thingId client;
             channel := channelId;
             subtopic := join "." elements;
             protocol := "mqtt";
             payload := packetPayload packet |};
        PublishDone 0 ]
  | RpcErr message =>
      [ LogWarn "unauthorized publish: %s" [message]; PublishDone 4 ]
  end.

(** [aedes.authorizePublish]; [canAccess] is the things service. *)
Definition authorizePublish (canAccess : AccessReq -> RpcResult)
    (client : Client) (packet : Packet) : list Effect :=
  match parseTopic (topic packet) with
  | None => [ LogWarn "unknown topic" []; PublishDone 4 ]
  | Some channelId =>
      let accessReq := {| token := password client; chanID := channelId |} in
      let elements := elementsOf (topic packet) in
      if existsb invalidElement elements
      then [ LogWarn "invalid subtopic" []; PublishDone 4 ]
      else
        let channelTopic := channelTopicOf channelId elements in
        ThingsCanAccess accessReq
          :: onAuthorize client packet channelId elements channelTopic
               (canAccess accessReq)
  end.

(** [aedes.authorizeSubscribe] *)
Definition authorizeSubscribe (canAccess : AccessReq -> RpcResult)
    (client : Client) (packet : Packet) : list Effect :=
  match parseTopic (topic packet) with
  | None => [ LogWarn "unknown topic" []; SubscribeDone (Some 4%Z) packet ]
  | Some channelId =>
      let accessReq := {| token := password client; chanID := channelId |} in
      ThingsCanAccess accessReq ::
      match canAccess accessReq with
      | RpcOk _ => [ LogInfo "authorized subscribe" []; SubscribeDone None packet ]
      | RpcErr message =>
          [ LogWarn "unauthorized subscribe: %s" [message];
            SubscribeDone (Some 4%Z) packet ]
      end
  end.

(** [Math.round(t / d)] for an integer time [t] and a positive integer
    [d]: the integer nearest to the quotient, halves rounded up.  The
    quotient is taken exactly: a [Date] holds at most 8.64e15 milliseconds
    in absolute value, and there half an ulp of [t / 1000] is below
    [1 / 1000], so rounding the quotient to a double cannot move it across
    a half. *)
Definition roundDiv (t d : Z) : Z := ((2 * t + d) / (2 * d))%Z.

(** [publishConnEvent]; [now] is [(new Date()).getTime()] and [xaddErr]
    what redis answers to the [XADD]. *)
Definition publishConnEvent (cfg : Config) (now : Z) (xaddErr : option string)
    (id type : string) : list Effect :=
  EsXadd (event_stream cfg) "*"
    [ RStr "thing_id"; RStr id;
      RStr "timestamp"; RNum (roundDiv now 1000);
      RStr "event_type"; RStr type;
      RStr "instance"; RStr (instance_id cfg) ]
  :: match xaddErr with
     | Some err => [ LogWarn "event publish failed: %s" [err] ]
     | None => []
     end.

(** [x || y] on strings: the empty string is the only falsy one. *)
Definition orString (x y : string) : string := if nonEmpty x then x else y.

(** [aedes.authenticate]; [identify] is the things service,
    [passwd = None] an absent password. *)
Definition authenticate (cfg : Config) (now : Z) (xaddErr : option string)
    (identify : string -> RpcResult)
    (client : Client) (username : option string) (passwd : option string)
    : Client * list Effect :=
  let pass := match passwd with Some p => p | None => "" end in
  match identify pass with
  | RpcOk value =>
      let client' :=
        {| id := orString (id client) (orString value "");
           thingId := orString value "";
           password := Some pass |} in
      (client',
       ThingsIdentify pass :: Acknowledge None true
         :: publishConnEvent cfg now xaddErr (thingId client') "connect")
  | RpcErr message =>
      (client,
       [ ThingsIdentify pass;
         LogWarn "failed to authenticate client with key %s" [pass];
         Acknowledge (Some message) false ])
  end.

(** The [clientDisconnect] handler. *)
Definition clientDisconnect (cfg : Config) (now : Z) (xaddErr : option string)
    (client : Client) : Client * list Effect :=
  ({| id := id client; thingId := thingId client; password := None |},
   LogInfo "disconnect client %s" [id client]
     :: publishConnEvent cfg now xaddErr (thingId client) "disconnect").

(** The handler of [nats.subscribe('channel.>', ...)]; [m] is what
    [RawMessage.decode] returned, [None] when there is no message. *)
Definition onBusMessage (m : option RawMessage) : list Effect :=
  match m with
  | Some m =>
      if negb (String.eqb (protocol m) "mqtt") then
        let subtopic :=
          if nonEmpty (subtopic m)
          then "/" ++ replaceAll "." "/" (subtopic m)
          else "" in
        [ AedesPublish
            {| cmd := "publish";
               qos := 2;
               topic := "channels/" ++ channel m ++ "/messages" ++ subtopic;
               packetPayload := payload m;
               retain := false |} ]
      else []
  | None => []
  end.

End Mqtt.

(** ** The NATS publisher of the WebSocket adapter (Go, package [nats]) *)

Module Nats.
Import Mqtt.

Definition prefix : string := "channel".
Definition maxFailedReqs : Z := 3.

(** IEEE 754 binary64, as Go's [float64]. *)
Definition float64 : Type := spec_float.
Definition f64div : float64 -> float64 -> float64 := SFdiv 53 1024.
Definition f64geb (x y : float64) : bool := SFleb y x.
Definition float64_of_uint32 (n : Z) : float64 :=
  binary_normalize 53 1024 n 0 false.

(** The constant [0.6] converted to [float64]: 0x3FE3333333333333. *)
Definition maxFailureRatio : float64 :=
  S754_finite false 5404319552844595 (-53).

(** [gobreaker.Counts]; the fields are [uint32]. *)
Record Counts : Type := mkCounts {
  Requests : Z;
  TotalSuccesses : Z;
  TotalFailures : Z;
  ConsecutiveSuccesses : Z;
  ConsecutiveFailures : Z
}.

Inductive State : Type := StateClosed | StateHalfOpen | StateOpen.

Record Settings : Type := mkSettings {
  Name : string;
  ReadyToTrip : Counts -> bool
}.

(** What [New] and [Publish] touch of a [gobreaker.CircuitBreaker]. *)
Record CircuitBreaker : Type := mkCircuitBreaker {
  settings : Settings;
  state : State;
  counts : Counts
}.

(** [gobreaker.NewCircuitBreaker]: closed, with cleared counts. *)
Definition NewCircuitBreaker (st : Settings) : CircuitBreaker :=
  {| settings := st; state := StateClosed; counts := mkCounts 0 0 0 0 0 |}.

(** The behaviour of a [*broker.Conn]: the error of [Publish], if any. *)
Record Conn : Type := mkConn {
  connPublish : string -> bytes -> option string
}.

Record natsPubSub : Type := mkNatsPubSub {
  nc : Conn;
  cb : CircuitBreaker
}.

(** The [ReadyToTrip] closure of [New]. *)
Definition readyToTrip (counts : Counts) : bool :=
  let fr := f64div (float64_of_uint32 (TotalFailures counts))
                   (float64_of_uint32 (Requests counts)) in
  (maxFailedReqs <=? Requests counts)%Z && f64geb fr maxFailureRatio.

Definition New (nc : Conn) : natsPubSub :=
  let st := {| Name := "NATS"; ReadyToTrip := readyToTrip |} in
  let cb := NewCircuitBreaker st in
  {| nc := nc; cb := cb |}.

Definition fmtSubject (chanID subtopic : string) : string :=
  let subject := prefix ++ "." ++ chanID in
  if JsString.nonEmpty subtopic then subject ++ "." ++ subtopic else subject.

(** Calls that leave the process. *)
Inductive Call : Type :=
| NcPublish (subject : string) (data : bytes).

(** [Publish]; [marshal] is [proto.Marshal].  The result is the returned
    error and the calls made on the connection. *)
Definition Publish (marshal : RawMessage -> bytes + string)
    (pubsub : natsPubSub) (msg : RawMessage) : option string * list Call :=
  match marshal msg with
  | inr err => (Some err, [])
  | inl data =>
      let subject := fmtSubject (channel msg) (subtopic msg) in
      (connPublish (nc pubsub) subject data, [NcPublish subject data])
  end.

(** A run of [Publish] calls on one publisher, oldest first. *)
Fixpoint publishAll (marshal : RawMessage -> bytes + string)
    (pubsub : natsPubSub) (msgs : list RawMessage)
    : list (option string * list Call) :=
  match msgs with
  | [] => []
  | m :: ms => Publish marshal pubsub m :: publishAll marshal pubsub ms
  end.

End Nats.

(** ** Derived notions used to state the properties *)

Module Translator.
Import JsString Regex Mqtt.

(** Topic to [(channelID, subtopic)], as [authorizePublish] computes the
    pair before it asks the things service; [None] when it refuses. *)
Definition parse (topic : string) : option (string * string) :=
  match parseTopic topic with
  | None => None
  | Some channelId =>
      let elements := elementsOf topic in
      if existsb invalidElement elements then None
      else Some (channelId, join "." elements)
  end.

(** [(channel, subtopic)] to topic, as the bus handler builds it. *)
Definition render (channel subtopic : string) : string :=
  "channels/" ++ channel ++ "/messages"
    ++ (if nonEmpty subtopic then "/" ++ replaceAll "." "/" subtopic else "").

(** Every code unit of [s] satisfies [p]. *)
Fixpoint allChars (p : ascii -> bool) (s : string) : bool :=
  match s with
  | EmptyString => true
  | String c s' => p c && allChars p s'
  end.

Definition noLineTerminator (s : string) : bool :=
  allChars (fun c => negb (isLineTerminator c)) s.

(** The segments of a subtopic: none for [''], else its dot-separated parts. *)
Definition segmentsOf (subtopic : string) : list string :=
  if nonEmpty subtopic then split "." subtopic else [].

(** A segment that matches [[^.*>]+] as a whole. *)
Definition segmentOk (seg : string) : bool :=
  nonEmpty seg && negb (includes "." seg)
    && negb (includes "*" seg) && negb (includes ">" seg).

(** A channel id as the data model has it: not empty, no [/], no [.]. *)
Definition channelOk (ch : string) : bool :=
  nonEmpty ch && negb (includes "/" ch) && negb (includes "." ch).

Definition subtopicOk (subtopic : string) : bool :=
  forallb segmentOk (segmentsOf subtopic).

(** The stricter validity under which the translation is a bijection:
    in addition no [/] inside a segment and no line terminator. *)
Definition segmentStrict (seg : string) : bool :=
  segmentOk seg && negb (includes "/" seg) && noLineTerminator seg.

Definition channelStrict (ch : string) : bool :=
  channelOk ch && noLineTerminator ch.

Definition subtopicStrict (subtopic : string) : bool :=
  forallb segmentStrict (segmentsOf subtopic).

(** [channels/{id}/messages] followed by [/{seg}] for every segment. *)
Definition topicOf (ch : string) (segs : list string) : string :=
  "channels/" ++ ch ++ "/messages"
    ++ String.concat "" (map (fun seg => "/" ++ seg) segs).

(** The shape [channels/{id}/messages] or [channels/{id}/messages/...]
    with a channel id that is not empty and has no [/] and no [.]. *)
Definition topicShape (topic : string) : Prop :=
  exists ch rest,
    channelOk ch = true /\
    (rest = "" \/ exists rest', rest = "/" ++ rest') /\
    topic = "channels/" ++ ch ++ "/messages" ++ rest.

(** [s] without its prefix [p], when it starts with [p]. *)
Fixpoint stripPrefix (p s : string) : option string :=
  match p, s with
  | EmptyString, _ => Some s
  | String a p', String b s' =>
      if Ascii.eqb b a then stripPrefix p' s' else None
  | String _ _, EmptyString => None
  end.

(** What follows [.+?]: the group closes, then [\/messages\/?.*$]. *)
Definition afterGroup : capture -> string -> option capture :=
  run (GClose :: lits "/messages" ++ [OptG (Lit "/"); StarG Dot; Eoi])%list.

(** The bus publishes of a trace, oldest first. *)
Fixpoint busPublishes (tr : list Effect) : list (string * RawMessage) :=
  match tr with
  | [] => []
  | NatsPublish subject rawMsg :: tr' => (subject, rawMsg) :: busPublishes tr'
  | _ :: tr' => busPublishes tr'
  end.

(** The MQTT publishes of a trace, oldest first. *)
Fixpoint mqttPublishes (tr : list Effect) : list Packet :=
  match tr with
  | [] => []
  | AedesPublish packet :: tr' => packet :: mqttPublishes tr'
  | _ :: tr' => mqttPublishes tr'
  end.

(** The records appended to the event stream by a trace, oldest first. *)
Fixpoint streamAppends (tr : list Effect) : list (string * list RedisArg) :=
  match tr with
  | [] => []
  | EsXadd stream _ fields :: tr' => (stream, fields) :: streamAppends tr'
  | _ :: tr' => streamAppends tr'
  end.

End Translator.

(** ** The subscription side of the NATS publisher (Go, package [nats]) *)

Module NatsSubscribe.
Import Mqtt Nats.

(** What the subscription callback does to the WebSocket channel. *)
Inductive Delivery : Type :=
| ChannelSend (rawMsg : RawMessage).

(** The callback that [Subscribe] registers; [msg = None] is a nil
    [*broker.Msg], [unmarshal] is [proto.Unmarshal]. *)
Definition onMsg (unmarshal : bytes -> RawMessage + string)
    (msg : option bytes) : list Delivery :=
  match msg with
  | None => []
  | Some data =>
      match unmarshal data with
      | inr _ => []
      | inl rawMsg => [ChannelSend rawMsg]
      end
  end.

(** [Subscribe]: the subject handed to [nc.Subscribe] together with the
    callback. *)
Definition Subscribe (unmarshal : bytes -> RawMessage + string)
    (chanID subtopic : string) : string * (option bytes -> list Delivery) :=
  (fmtSubject chanID subtopic, onMsg unmarshal).

End NatsSubscribe.

(** ** The message writer (Go, package [writers]) *)

Module Writers.
Import Mqtt Nats.

(** The value of a normalized message: the [oneof] of [mainflux.Message]. *)
Inductive MessageValue : Type :=
| FloatValue (v : float64)
| StringValue (v : string)
| BoolValue (v : bool)
| DataValue (v : string).

(** [mainflux.Message], with the fields the readers and writers touch. *)
Record Message : Type := mkMessage {
  Channel : string;
  Subtopic : string;
  Publisher : string;
  Protocol : string;
  MsgName : string;
  Unit : string;
  Value : option MessageValue;
  ValueSum : option float64;
  Time : float64;
  UpdateTime : float64;
  Link : string
}.

(** The part of [consumer] that [consume] reads besides its collaborators. *)
Record consumer : Type := mkConsumer {
  channels : list string
}.

Inductive Effect : Type :=
| Warn (msg : string)
| RepoSave (msg : Message).

(** The [for ... range] loop of [channelExists]. *)
Fixpoint findChannel (chs : list string) (channel : string) : bool :=
  match chs with
  | [] => false
  | ch :: rest => if String.eqb ch channel then true else findChannel rest channel
  end.

Definition channelExists (c : consumer) (channel : string) : bool :=
  match channels c with
  | [first] => if String.eqb first "*" then true else findChannel (channels c) channel
  | _ => findChannel (channels c) channel
  end.

(** [consume]; [unmarshal] is [proto.Unmarshal] and [save] is [repo.Save]. *)
Definition consume (unmarshal : bytes -> Message + string)
    (save : Message -> option string) (c : consumer) (data : bytes)
    : list Effect :=
  match unmarshal data with
  | inr err => [ Warn ("Failed to unmarshal received message: " ++ err) ]
  | inl msg =>
      if negb (channelExists c (Channel msg)) then []
      else
        RepoSave msg ::
        match save msg with
        | Some err => [ Warn ("Failed to save message: " ++ err) ]
        | None => []
        end
  end.

(** The messages handed to [repo.Save] by a trace, oldest first. *)
Fixpoint savedMessages (tr : list Effect) : list Message :=
  match tr with
  | [] => []
  | RepoSave msg :: tr' => msg :: savedMessages tr'
  | _ :: tr' => savedMessages tr'
  end.

End Writers.

(** ** The Cassandra message reader (Go, package [cassandra]) *)

Module Cassandra.
Import Nats Writers.

(** A bound value of the statement: [interface{}] holding a [string] or a
    [uint64]. *)
Inductive Arg : Type :=
| ArgString (s : string)
| ArgUint64 (n : Z).

(** [a + b] on [uint64]. *)
Definition addUint64 (a b : Z) : Z := ((a + b) mod 2 ^ 64)%Z.

Definition NL : string := String (ascii_of_nat 10) "".
Definition TAB3 : string :=
  String (ascii_of_nat 9) (String (ascii_of_nat 9) (String (ascii_of_nat 9) "")).

(** The statement up to its [%s] and after it. *)
Definition cqlHead : string :=
  "SELECT channel, subtopic, publisher, protocol, name, unit," ++ NL
  ++ TAB3 ++ "value, string_value, bool_value, data_value, value_sum, time," ++ NL
  ++ TAB3 ++ "update_time, link FROM messages WHERE channel = ? ".
Definition cqlTail : string :=
  " LIMIT ?" ++ NL ++ TAB3 ++ "ALLOW FILTERING".

(** The names of the [case] of the [switch]. *)
Definition isColumn (name : string) : bool :=
  String.eqb name "channel" || String.eqb name "subtopic"
  || String.eqb name "publisher" || String.eqb name "name"
  || String.eqb name "protocol".

(** The [for name, value := range query] loop; [query] lists the entries
    of the map in the order the loop visits them. *)
Fixpoint rangeQuery (query : list (string * string))
    (condSql : string) (values : list Arg) : string * list Arg :=
  match query with
  | [] => (condSql, values)
  | (name, value) :: rest =>
      if isColumn name
      then rangeQuery rest (condSql ++ " AND " ++ name ++ " = ?")
                      (values ++ [ArgString value])
      else rangeQuery rest condSql values
  end.

Definition buildQuery (chanID : string) (offset limit : Z)
    (query : list (string * string)) : string * list Arg :=
  let (condSql, values) := rangeQuery query "" [ArgString chanID] in
  (cqlHead ++ condSql ++ cqlTail,
   (values ++ [ArgUint64 (addUint64 offset limit)])%list).

(** A row of the result set; [None] is a NULL column. *)
Record Row : Type := mkRow {
  rowChannel : string;
  rowSubtopic : string;
  rowPublisher : string;
  rowProtocol : string;
  rowName : string;
  rowUnit : string;
  rowValue : option float64;
  rowStringValue : option string;
  rowBoolValue : option bool;
  rowDataValue : option string;
  rowValueSum : option float64;
  rowTime : float64;
  rowUpdateTime : float64;
  rowLink : string
}.

(** The body of the second loop of [ReadAll]: scan a row into a message. *)
Definition scanRow (r : Row) : Message :=
  {| Channel := rowChannel r;
     Subtopic := rowSubtopic r;
     Publisher := rowPublisher r;
     Protocol := rowProtocol r;
     MsgName := rowName r;
     Unit := rowUnit r;
     Value :=
       match rowValue r, rowStringValue r, rowBoolValue r, rowDataValue r with
       | Some f, _, _, _ => Some (FloatValue f)
       | None, Some s, _, _ => Some (StringValue s)
       | None, None, Some b, _ => Some (BoolValue b)
       | None, None, None, Some d => Some (DataValue d)
       | None, None, None, None => None
       end;
     ValueSum := rowValueSum r;
     Time := rowTime r;
     UpdateTime := rowUpdateTime r;
     Link := rowLink r |}.

(** The first loop of [ReadAll]: [offset] calls of [scanner.Next], fewer
    when the rows run out. *)
Fixpoint skipRows (offset : nat) (rows : list Row) : list Row :=
  match offset with
  | O => rows
  | S n =>
      match rows with
      | [] => []
      | _ :: rest => skipRows n rest
      end
  end.

(** [ReadAll]; [runQuery] is the session answering the statement, and
    [closeErr] the error of [iter.Close]. *)
Definition ReadAll (runQuery : string -> list Arg -> list Row)
    (closeErr : option string)
    (chanID : string) (offset limit : Z) (query : list (string * string))
    : list Message :=
  let (cql, values) := buildQuery chanID offset limit query in
  let rows := runQuery cql values in
  let page := map scanRow (skipRows (Z.to_nat offset) rows) in
  match closeErr with
  | Some _ => []
  | None => page
  end.

(** Occurrences of a character. *)
Fixpoint countChar (c : ascii) (s : string) : nat :=
  match s with
  | EmptyString => 0
  | String d s' => (if Ascii.eqb d c then 1 else 0) + countChar c s'
  end.

End Cassandra.

(** ** The HTTP endpoints of the things service (Go, package [http]) *)

Module ThingsHttp.

(** An [error] value; [things.ErrNotFound] is the one the endpoints test. *)
Inductive error : Type :=
| ErrNotFound
| ErrOther (msg : string).

Definition isNotFound (e : error) : bool :=
  match e with ErrNotFound => true | ErrOther _ => false end.

Record Thing : Type := mkThing {
  ID : string;
  Owner : string;
  Name : string;
  Key : string;
  Metadata : string
}.

Record ThingsPage : Type := mkThingsPage {
  Total : Z;
  Offset : Z;
  Limit : Z;
  Things : list Thing
}.

Record viewResourceReq : Type := mkViewResourceReq {
  vkey : string;
  vid : string
}.

Record listResourcesReq : Type := mkListResourcesReq {
  lkey : string;
  loffset : Z;
  llimit : Z
}.

Record viewThingRes : Type := mkViewThingRes {
  resID : string;
  resOwner : string;
  resName : string;
  resKey : string;
  resMetadata : string
}.

Record thingsPageRes : Type := mkThingsPageRes {
  resTotal : Z;
  resOffset : Z;
  resLimit : Z;
  resThings : list viewThingRes
}.

(** Calls on the [things.Service] behind the endpoints. *)
Inductive Call : Type :=
| CallRemoveThing (key id : string)
| CallRemoveChannel (key id : string)
| CallListThings (key : string) (offset limit : Z).

(** What an endpoint returns, [(response, error)], and the calls it made. *)
Definition outcome (R : Type) : Type := (option R * option error) * list Call.

(** [removeThingEndpoint]; [validate] is [req.validate] and [remove] is
    [svc.RemoveThing]. *)
Definition removeThingEndpoint
    (validate : viewResourceReq -> option error)
    (remove : string -> string -> option error)
    (req : viewResourceReq) : outcome unit :=
  let err := validate req in
  match err with
  | Some ErrNotFound => ((Some tt, None), [])
  | Some e => ((None, Some e), [])
  | None =>
      match remove (vkey req) (vid req) with
      | Some e => ((None, Some e), [CallRemoveThing (vkey req) (vid req)])
      | None => ((Some tt, None), [CallRemoveThing (vkey req) (vid req)])
      end
  end.

(** [removeChannelEndpoint]; [remove] is [svc.RemoveChannel]. *)
Definition removeChannelEndpoint
    (validate : viewResourceReq -> option error)
    (remove : string -> string -> option error)
    (req : viewResourceReq) : outcome unit :=
  match validate req with
  | Some err =>
      if isNotFound err then ((Some tt, None), [])
      else ((None, Some err), [])
  | None =>
      match remove (vkey req) (vid req) with
      | Some e => ((None, Some e), [CallRemoveChannel (vkey req) (vid req)])
      | None => ((Some tt, None), [CallRemoveChannel (vkey req) (vid req)])
      end
  end.

(** The [for _, thing := range page.Things] loop of [listThingsEndpoint]. *)
Fixpoint appendViews (things : list Thing) (acc : list viewThingRes)
    : list viewThingRes :=
  match things with
  | [] => acc
  | thing :: rest =>
      let view :=
        {| resID := ID thing;
           resOwner := Owner thing;
           resName := Name thing;
           resKey := Key thing;
           resMetadata := Metadata thing |} in
      appendViews rest (acc ++ [view])
  end.

(** [listThingsEndpoint]; [listThings] is [svc.ListThings]. *)
Definition listThingsEndpoint
    (validate : listResourcesReq -> option error)
    (listThings : string -> Z -> Z -> ThingsPage + error)
    (req : listResourcesReq) : outcome thingsPageRes :=
  match validate req with
  | Some err => ((None, Some err), [])
  | None =>
      let calls := [CallListThings (lkey req) (loffset req) (llimit req)] in
      match listThings (lkey req) (loffset req) (llimit req) with
      | inr err => ((None, Some err), calls)
      | inl page =>
          ((Some {| resTotal := Total page;
                    resOffset := Offset page;
                    resLimit := Limit page;
                    resThings := appendViews (Things page) [] |},
            None), calls)
      end
  end.

End ThingsHttp.

(** ** The connection page of the UI (Elm) *)

Module Ui.





(** [HttpMF.paths], as far as the page uses it. *)
Record Paths : Type := mkPaths {
  pathChannels : string;
  pathThings : string
}.



Section Pages.
Variable paths : Paths.
Variable checkEntity : string -> list string -> list string.




End Pages.

End Ui.

(** * Properties *)

Import JsString Regex Mqtt Translator.

(** ** Strings *)

Section StringFacts.

Lemma append_assoc (a b c : string) : (a ++ b) ++ c = a ++ (b ++ c).
Proof. induction a; simpl; congruence. Qed.

Lemma split_not_nil (sep : ascii) (s : string) : split sep s <> [].
Proof.
  destruct s as [|c s]; simpl; [discriminate|].
  destruct (Ascii.eqb c sep); [discriminate|].
  destruct (split sep s); discriminate.
Qed.

Lemma split_without (sep : ascii) (a : string) :
  includes sep a = false -> split sep a = [a].
Proof.
  induction a as [|c a IH]; simpl; intros H; [reflexivity|].
  apply orb_false_iff in H. destruct H as [Hc Ha].
  rewrite Hc, (IH Ha). reflexivity.
Qed.

Lemma split_app_sep (sep : ascii) (a b : string) :
  includes sep a = false ->
  split sep (a ++ String sep b) = a :: split sep b.
Proof.
  induction a as [|c a IH]; simpl; intros H.
  - rewrite Ascii.eqb_refl. reflexivity.
  - apply orb_false_iff in H. destruct H as [Hc Ha].
    rewrite Hc, (IH Ha). reflexivity.
Qed.

(** [s.split(sep).join(sep)] gives [s] back. *)
Lemma join_split (sep : ascii) (s : string) :
  join (String sep "") (split sep s) = s.
Proof.
  unfold join. induction s as [|c s IH]; [reflexivity|].
  simpl split. destruct (Ascii.eqb c sep) eqn:Hc.
  - apply Ascii.eqb_eq in Hc. subst c.
    destruct (split sep s) as [|x xs] eqn:E.
    + exfalso. exact (split_not_nil _ _ E).
    + simpl. simpl in IH. rewrite IH. reflexivity.
  - destruct (split sep s) as [|x xs] eqn:E.
    + exfalso. exact (split_not_nil _ _ E).
    + simpl. simpl in IH. destruct xs; simpl in *; rewrite <- IH; reflexivity.
Qed.

(** A property of every code unit passes to the parts of a split and back,
    as long as the separator has it. *)
Lemma allChars_split (p : ascii -> bool) (sep : ascii) (s : string) :
  p sep = true ->
  allChars p s = forallb (allChars p) (split sep s).
Proof.
  intros Hp. induction s as [|c s IH]; [reflexivity|].
  simpl split. destruct (Ascii.eqb c sep) eqn:Hc.
  - apply Ascii.eqb_eq in Hc. subst c. simpl. rewrite Hp, IH. reflexivity.
  - destruct (split sep s) as [|x xs] eqn:E.
    + exfalso. exact (split_not_nil _ _ E).
    + simpl in *. rewrite IH. now rewrite andb_assoc.
Qed.

Lemma includes_allChars (c : ascii) (s : string) :
  includes c s = negb (allChars (fun x => negb (Ascii.eqb x c)) s).
Proof.
  induction s as [|d s IH]; [reflexivity|].
  simpl. rewrite IH. destruct (Ascii.eqb d c); reflexivity.
Qed.

Lemma includes_split_other (c sep : ascii) (s : string) :
  Ascii.eqb sep c = false ->
  includes c s = existsb (includes c) (split sep s).
Proof.
  intros Hne. rewrite includes_allChars.
  rewrite (allChars_split _ sep) by (now rewrite Hne).
  induction (split sep s) as [|x xs IH]; [reflexivity|].
  simpl. rewrite negb_andb, IH, <- includes_allChars. reflexivity.
Qed.

Lemma allChars_replaceAll (p : ascii -> bool) (c d : ascii) (s : string) :
  p d = true -> allChars p s = true -> allChars p (replaceAll c d s) = true.
Proof.
  intros Hd. induction s as [|x s IH]; simpl; [reflexivity|].
  intros H. apply andb_true_iff in H. destruct H as [Hx Hs].
  rewrite (IH Hs). destruct (Ascii.eqb x c); [rewrite Hd|rewrite Hx]; reflexivity.
Qed.

(** Replacing every [c] by [d] and splitting on [d] is splitting on [c],
    when [d] does not occur. *)
Lemma split_replaceAll (c d : ascii) (s : string) :
  includes d s = false ->
  split d (replaceAll c d s) = split c s.
Proof.
  induction s as [|x s IH]; simpl; intros H; [reflexivity|].
  apply orb_false_iff in H. destruct H as [Hx Hs].
  rewrite (IH Hs). destruct (Ascii.eqb x c) eqn:Hc.
  - rewrite Ascii.eqb_refl. reflexivity.
  - rewrite Hx. reflexivity.
Qed.

Lemma filter_all {A : Type} (f : A -> bool) (l : list A) :
  forallb f l = true -> filter f l = l.
Proof.
  induction l as [|x l IH]; simpl; [reflexivity|].
  intros H. apply andb_true_iff in H. destruct H as [Hx Hl].
  rewrite Hx, (IH Hl). reflexivity.
Qed.

End StringFacts.

(** ** The topic pattern *)

Section TopicPattern.

Lemma stripPrefix_app (p s : string) : stripPrefix p (p ++ s) = Some s.
Proof. induction p; simpl; [reflexivity|]. now rewrite Ascii.eqb_refl. Qed.

Lemma stripPrefix_Some (p s r : string) :
  stripPrefix p s = Some r -> s = p ++ r.
Proof.
  revert s. induction p as [|a p IH]; simpl; intros s H.
  - congruence.
  - destruct s as [|b s]; [discriminate|].
    destruct (Ascii.eqb b a) eqn:E; [|discriminate].
    apply Ascii.eqb_eq in E. subst b. f_equal. now apply IH.
Qed.

(** A run of literals consumes exactly that prefix (outside a group). *)
Lemma run_lits (p : string) (r : regex) (g : capture) (s : string) :
  (forall c, record c g = g) ->
  run (lits p ++ r)%list g s =
    match stripPrefix p s with
    | Some s' => run r g s'
    | None => None
    end.
Proof.
  intros Hg. revert s. induction p as [|a p IH]; intros s; [reflexivity|].
  simpl. destruct s as [|b s]; [reflexivity|].
  destruct (Ascii.eqb b a); [|reflexivity].
  rewrite Hg. apply IH.
Qed.

(** [.*] before a continuation that wants the end of the input. *)
Lemma starG_end (k : capture -> string -> option capture) (x s : string) :
  (forall g, k g "" = Some g) ->
  (forall g c s', k g (String c s') = None) ->
  starG Dot k (Captured x) s =
    if noLineTerminator s then Some (Captured x) else None.
Proof.
  intros Hnil Hcons. unfold noLineTerminator.
  induction s as [|c s IH]; simpl; [apply Hnil|].
  rewrite Hcons. destruct (isLineTerminator c); simpl; [reflexivity|].
  rewrite IH. destruct (allChars _ s); reflexivity.
Qed.

(** [.*$] after the group: succeeds exactly without a line terminator. *)
Lemma starG_eoi (x s : string) :
  starG Dot (run [Eoi]) (Captured x) s =
    if noLineTerminator s then Some (Captured x) else None.
Proof. apply starG_end; reflexivity. Qed.

(** [\/?.*$] after the group. *)
Lemma run_tail (x s : string) :
  run [OptG (Lit "/"); StarG Dot; Eoi] (Captured x) s =
    if noLineTerminator s then Some (Captured x) else None.
Proof.
  change (run [OptG (Lit "/"); StarG Dot; Eoi] (Captured x) s)
    with (match s with
          | String c s' =>
              if matchAtom (Lit "/") c
              then orElse (starG Dot (run [Eoi]) (Captured x) s')
                          (starG Dot (run [Eoi]) (Captured x) s)
              else starG Dot (run [Eoi]) (Captured x) s
          | EmptyString => starG Dot (run [Eoi]) (Captured x) s
          end).
  destruct s as [|c s]; [reflexivity|].
  destruct (matchAtom (Lit "/") c) eqn:E; [|apply starG_eoi].
  simpl in E. apply Ascii.eqb_eq in E. subst c.
  rewrite !starG_eoi. unfold noLineTerminator. simpl.
  destruct (allChars _ s); reflexivity.
Qed.

Lemma afterGroup_spec (acc s : string) :
  afterGroup (Recording acc) s =
    match stripPrefix "/messages" s with
    | Some rest =>
        if noLineTerminator rest then Some (Captured acc) else None
    | None => None
    end.
Proof.
  unfold afterGroup.
  change (run (GClose :: lits "/messages" ++ [OptG (Lit "/"); StarG Dot; Eoi])%list
              (Recording acc) s)
    with (run (lits "/messages" ++ [OptG (Lit "/"); StarG Dot; Eoi])%list
              (Captured acc) s).
  rewrite run_lits by reflexivity.
  destruct (stripPrefix "/messages" s); [apply run_tail|reflexivity].
Qed.

Lemma parseTopic_unfold (topic : string) :
  parseTopic topic =
    match stripPrefix "channels/" topic with
    | Some s =>
        match plusL Dot afterGroup (Recording "") s with
        | Some (Captured x) => Some x
        | Some _ => Some ""
        | None => None
        end
    | None => None
    end.
Proof.
  unfold parseTopic, execAnchored, topicRegex.
  rewrite run_lits by reflexivity.
  destruct (stripPrefix "channels/" topic); reflexivity.
Qed.

Lemma plusL_cons (a : atom) (k : capture -> string -> option capture)
    (g : capture) (c : ascii) (s : string) :
  plusL a k g (String c s) =
    if matchAtom a c
    then orElse (k (record c g) s) (plusL a k (record c g) s)
    else None.
Proof. reflexivity. Qed.

(** The lazy group stops at the first [/messages]: with no [/] in the
    channel part, that is the one right after it. *)
Lemma plusL_channel (ch rest : string) :
  nonEmpty ch = true ->
  includes "/" ch = false ->
  noLineTerminator ch = true ->
  noLineTerminator rest = true ->
  forall acc,
    plusL Dot afterGroup (Recording acc) (ch ++ "/messages" ++ rest)
    = Some (Captured (acc ++ ch)).
Proof.
  induction ch as [|c ch IH]; [discriminate|].
  intros _ Hslash Hlt Hrest acc.
  simpl in Hslash. apply orb_false_iff in Hslash. destruct Hslash as [Hc Hch].
  unfold noLineTerminator in Hlt. simpl in Hlt.
  apply andb_true_iff in Hlt. destruct Hlt as [Hltc Hltch].
  change (String c ch ++ "/messages" ++ rest)
    with (String c (ch ++ "/messages" ++ rest)).
  rewrite plusL_cons. simpl matchAtom. rewrite Hltc. simpl record.
  rewrite afterGroup_spec.
  destruct ch as [|d ch'].
  - change ("" ++ "/messages" ++ rest) with ("/messages" ++ rest).
    rewrite stripPrefix_app, Hrest. reflexivity.
  - assert (Hd : Ascii.eqb d "/" = false).
    { simpl in Hch. apply orb_false_iff in Hch. tauto. }
    change (stripPrefix "/messages" (String d ch' ++ "/messages" ++ rest))
      with (if Ascii.eqb d "/"
            then stripPrefix "messages" (ch' ++ "/messages" ++ rest)
            else None).
    rewrite Hd. unfold orElse.
    rewrite IH by (try reflexivity; assumption).
    rewrite append_assoc. reflexivity.
Qed.

(** Whatever the group captured is followed by [/messages]. *)
Lemma plusL_sound (s : string) :
  forall acc g,
    plusL Dot afterGroup (Recording acc) s = Some g ->
    exists ch rest,
      nonEmpty ch = true /\
      noLineTerminator ch = true /\
      noLineTerminator rest = true /\
      s = ch ++ "/messages" ++ rest /\
      g = Captured (acc ++ ch).
Proof.
  induction s as [|c s IH]; intros acc g H; [discriminate|].
  rewrite plusL_cons in H. simpl matchAtom in H.
  destruct (isLineTerminator c) eqn:Hc; [discriminate|].
  simpl negb in H. cbv iota in H. simpl record in H.
  destruct (afterGroup (Recording (acc ++ String c "")) s) as [g'|] eqn:E.
  - simpl in H. injection H as <-.
    rewrite afterGroup_spec in E.
    destruct (stripPrefix "/messages" s) as [rest|] eqn:Es; [|discriminate].
    destruct (noLineTerminator rest) eqn:Hr; [|discriminate].
    injection E as <-. apply stripPrefix_Some in Es.
    exists (String c ""), rest. subst s.
    unfold noLineTerminator. simpl. rewrite Hc. auto.
  - simpl in H. apply IH in H.
    destruct H as (ch & rest & Hne & Hlt & Hr & -> & ->).
    exists (String c ch), rest.
    unfold noLineTerminator in *. simpl. rewrite Hc, Hlt, append_assoc. auto.
Qed.

(** Some [/messages] after a non-empty part is enough for a match. *)
Lemma plusL_accepts (ch rest : string) :
  nonEmpty ch = true ->
  noLineTerminator ch = true ->
  noLineTerminator rest = true ->
  forall acc,
    plusL Dot afterGroup (Recording acc) (ch ++ "/messages" ++ rest) <> None.
Proof.
  induction ch as [|c ch IH]; [discriminate|].
  intros _ Hlt Hrest acc.
  unfold noLineTerminator in Hlt. simpl in Hlt.
  apply andb_true_iff in Hlt. destruct Hlt as [Hltc Hltch].
  change (String c ch ++ "/messages" ++ rest)
    with (String c (ch ++ "/messages" ++ rest)).
  rewrite plusL_cons. simpl matchAtom. rewrite Hltc. simpl record.
  destruct (afterGroup (Recording (acc ++ String c ""))
              (ch ++ "/messages" ++ rest)) eqn:E; [discriminate|].
  unfold orElse. destruct ch as [|d ch'].
  - rewrite afterGroup_spec in E.
    change ("" ++ "/messages" ++ rest) with ("/messages" ++ rest) in E.
    rewrite stripPrefix_app, Hrest in E. discriminate.
  - apply IH; auto.
Qed.

(** [parseTopic] returns only what stands between [channels/] and a
    [/messages]. *)
Lemma parseTopic_sound (topic ch : string) :
  parseTopic topic = Some ch ->
  exists rest,
    topic = "channels/" ++ ch ++ "/messages" ++ rest /\
    nonEmpty ch = true /\
    noLineTerminator ch = true /\
    noLineTerminator rest = true.
Proof.
  rewrite parseTopic_unfold.
  destruct (stripPrefix "channels/" topic) as [s|] eqn:Es; [|discriminate].
  apply stripPrefix_Some in Es.
  destruct (plusL Dot afterGroup (Recording "") s) as [g|] eqn:E; [|discriminate].
  apply plusL_sound in E. destruct E as (c & rest & Hne & Hlt & Hr & -> & ->).
  simpl. intros [= <-]. exists rest. subst topic. auto.
Qed.

(** A channel part without [/] is what [parseTopic] returns. *)
Lemma parseTopic_complete (ch rest : string) :
  nonEmpty ch = true ->
  includes "/" ch = false ->
  noLineTerminator ch = true ->
  noLineTerminator rest = true ->
  parseTopic ("channels/" ++ ch ++ "/messages" ++ rest) = Some ch.
Proof.
  intros Hne Hs Hlt Hr. rewrite parseTopic_unfold, stripPrefix_app.
  rewrite plusL_channel by assumption. reflexivity.
Qed.

(** The topics [parseTopic] accepts. *)
Lemma parseTopic_accepts_iff (topic : string) :
  parseTopic topic <> None <->
  exists x rest,
    topic = "channels/" ++ x ++ "/messages" ++ rest /\
    nonEmpty x = true /\
    noLineTerminator x = true /\
    noLineTerminator rest = true.
Proof.
  split.
  - destruct (parseTopic topic) as [ch|] eqn:E; [|congruence].
    intros _. apply parseTopic_sound in E. destruct E as (rest & H).
    exists ch, rest. exact H.
  - intros (x & rest & -> & Hne & Hlt & Hr).
    rewrite parseTopic_unfold, stripPrefix_app.
    pose proof (plusL_accepts x rest Hne Hlt Hr "") as Hp.
    destruct (plusL Dot afterGroup (Recording "") (x ++ "/messages" ++ rest))
      as [[| |]|]; congruence.
Qed.

End TopicPattern.

(** ** Authorization of a PUBLISH *)

Section Authorization.

Variable canAccess : AccessReq -> RpcResult.
Variable client : Client.
Variable packet : Packet.

(** The four ways [authorizePublish] can run. *)
Lemma authorizePublish_cases :
  let tr := authorizePublish canAccess client packet in
  (parseTopic (topic packet) = None /\
     tr = [ LogWarn "unknown topic" []; PublishDone 4 ])
  \/ (exists channelId,
       parseTopic (topic packet) = Some channelId /\
       existsb invalidElement (elementsOf (topic packet)) = true /\
       tr = [ LogWarn "invalid subtopic" []; PublishDone 4 ])
  \/ (exists channelId message,
       parseTopic (topic packet) = Some channelId /\
       existsb invalidElement (elementsOf (topic packet)) = false /\
       canAccess {| token := password client; chanID := channelId |}
         = RpcErr message /\
       tr = [ ThingsCanAccess {| token := password client; chanID := channelId |};
              LogWarn "unauthorized publish: %s" [message];
              PublishDone 4 ])
  \/ (exists channelId value,
       parseTopic (topic packet) = Some channelId /\
       existsb invalidElement (elementsOf (topic packet)) = false /\
       canAccess {| token := password client; chanID := channelId |}
         = RpcOk value /\
       tr = [ ThingsCanAccess {| token := password client; chanID := channelId |};
              LogInfo "authorized publish" [];
              NatsPublish
                (channelTopicOf channelId (elementsOf (topic packet)))
                {| publisher := thingId client;
                   channel := channelId;
                   subtopic := join "." (elementsOf (topic packet));
                   protocol := "mqtt";
                   payload := packetPayload packet |};
              PublishDone 0 ]).
Proof.
  unfold authorizePublish.
  destruct (parseTopic (topic packet)) as [channelId|]; [|left; auto].
  destruct (existsb invalidElement (elementsOf (topic packet))) eqn:Hinv.
  - right; left. exists channelId. auto.
  - destruct (canAccess {| token := password client; chanID := channelId |})
      as [value|message] eqn:Hacc.
    + right; right; right. exists channelId, value. simpl. auto.
    + right; right; left. exists channelId, message. simpl. auto.
Qed.

End Authorization.

(** C1.  Whenever [authorizePublish] accepts a PUBLISH (signals code 0) or
    publishes on the bus, it has first called [CanAccess] with the client's
    stored password and the channel id parsed from the topic, the call has
    succeeded, and the bus publish comes after it; when [CanAccess] answers
    with an error the packet is refused with code 4 and nothing is
    published on the bus. *)
Theorem authorizePublish_auth_coverage :
  forall (canAccess : AccessReq -> RpcResult) (client : Client) (packet : Packet),
    (In (PublishDone 0) (authorizePublish canAccess client packet)
       \/ busPublishes (authorizePublish canAccess client packet) <> [] ->
     exists channelId value subject rawMsg,
       parseTopic (topic packet) = Some channelId /\
       canAccess {| token := password client; chanID := channelId |}
         = RpcOk value /\
       authorizePublish canAccess client packet =
         [ ThingsCanAccess {| token := password client; chanID := channelId |};
           LogInfo "authorized publish" [];
           NatsPublish subject rawMsg;
           PublishDone 0 ])
    /\
    (forall req message,
       In (ThingsCanAccess req) (authorizePublish canAccess client packet) ->
       canAccess req = RpcErr message ->
       In (PublishDone 4) (authorizePublish canAccess client packet) /\
       ~ In (PublishDone 0) (authorizePublish canAccess client packet) /\
       busPublishes (authorizePublish canAccess client packet) = []).
Proof.
  intros canAccess client packet.
  destruct (authorizePublish_cases canAccess client packet)
    as [[_ ->]|[(ch & _ & _ & ->)|[(ch & msg & Hp & _ & Hacc & ->)
       |(ch & value & Hp & _ & Hacc & ->)]]].
  - split.
    + simpl. intros [[H|[H|[]]]|H]; congruence.
    + simpl. intros req message [H|[H|[]]]; discriminate.
  - split.
    + simpl. intros [[H|[H|[]]]|H]; congruence.
    + simpl. intros req message [H|[H|[]]]; discriminate.
  - split.
    + simpl. intros [[H|[H|[H|[]]]]|H]; congruence.
    + simpl. intros req message [H|[H|[H|[]]]] _; try discriminate.
      split; [auto|]. split; [|reflexivity].
      intros [H'|[H'|[H'|[]]]]; discriminate.
  - split.
    + intros _. exists ch, value. eauto.
    + simpl. intros req message [H|[H|[H|[H|[]]]]] Herr; try discriminate.
      injection H as <-. congruence.
Qed.

Lemma authorizePublish_auth_coverage_witness :
  (exists channelId value subject rawMsg,
     parseTopic "channels/ch-9/messages/temp" = Some channelId /\
     RpcOk "thing-1" = RpcOk value /\
     authorizePublish (fun _ => RpcOk "thing-1")
       (mkClient "c1" "thing-1" (Some "abc"))
       (mkPacket "publish" 1 "channels/ch-9/messages/temp" [] false) =
       [ ThingsCanAccess {| token := Some "abc"; chanID := channelId |};
         LogInfo "authorized publish" [];
         NatsPublish subject rawMsg;
         PublishDone 0 ])
  /\
  (In (PublishDone 4)
      (authorizePublish (fun _ => RpcErr "denied")
         (mkClient "c1" "thing-1" (Some "abc"))
         (mkPacket "publish" 1 "channels/ch-9/messages/temp" [] false)) /\
   ~ In (PublishDone 0)
      (authorizePublish (fun _ => RpcErr "denied")
         (mkClient "c1" "thing-1" (Some "abc"))
         (mkPacket "publish" 1 "channels/ch-9/messages/temp" [] false)) /\
   busPublishes
      (authorizePublish (fun _ => RpcErr "denied")
         (mkClient "c1" "thing-1" (Some "abc"))
         (mkPacket "publish" 1 "channels/ch-9/messages/temp" [] false)) = []).
Proof.
  split.
  - apply (proj1 (authorizePublish_auth_coverage (fun _ => RpcOk "thing-1")
             (mkClient "c1" "thing-1" (Some "abc"))
             (mkPacket "publish" 1 "channels/ch-9/messages/temp" [] false))).
    left. vm_compute. tauto.
  - apply (proj2 (authorizePublish_auth_coverage (fun _ => RpcErr "denied")
             (mkClient "c1" "thing-1" (Some "abc"))
             (mkPacket "publish" 1 "channels/ch-9/messages/temp" [] false))
             {| token := Some "abc"; chanID := "ch-9" |} "denied").
    + vm_compute. tauto.
    + reflexivity.
Defined.

(** ** The envelope put on the bus *)

Lemma join_cons_nonEmpty (sep e : string) (es : list string) :
  nonEmpty e = true -> nonEmpty (join sep (e :: es)) = true.
Proof.
  destruct e; [discriminate|]. intros _.
  unfold join. simpl. destruct es; reflexivity.
Qed.

Lemma elementsOf_nonEmpty (t : string) :
  forallb nonEmpty (elementsOf t) = true.
Proof.
  unfold elementsOf, isEmpty.
  induction (split "." (join "." (slice baseLength (split "/" t)))) as [|x xs IH];
    simpl; [reflexivity|].
  destruct (nonEmpty x) eqn:E; simpl; [rewrite E|]; exact IH.
Qed.

(** The subject is [channel.<id>], with [.<subtopic>] after it exactly when
    the joined subtopic is not empty. *)
Lemma channelTopicOf_subtopic (channelId t : string) :
  channelTopicOf channelId (elementsOf t) =
    if nonEmpty (join "." (elementsOf t))
    then "channel." ++ channelId ++ "." ++ join "." (elementsOf t)
    else "channel." ++ channelId.
Proof.
  pose proof (elementsOf_nonEmpty t) as H.
  destruct (elementsOf t) as [|e es]; [reflexivity|].
  simpl in H. apply andb_true_iff in H. destruct H as [He _].
  rewrite (join_cons_nonEmpty _ _ _ He).
  unfold channelTopicOf. rewrite append_assoc. reflexivity.
Qed.

(** C2.  Every envelope that [authorizePublish] puts on the bus has the
    client's thing id as publisher, protocol ["mqtt"], the channel parsed
    from the topic, the dot-joined elements as subtopic and the payload of
    the PUBLISH, and goes out on [channel.<id>], followed by [.<subtopic>]
    when the subtopic is not empty; the thing id of a client is the one the
    things service returned when the client authenticated. *)
Theorem authorizePublish_envelope :
  (forall canAccess client packet subject rawMsg,
     In (subject, rawMsg) (busPublishes (authorizePublish canAccess client packet)) ->
     exists channelId,
       parseTopic (topic packet) = Some channelId /\
       publisher rawMsg = thingId client /\
       protocol rawMsg = "mqtt" /\
       channel rawMsg = channelId /\
       subtopic rawMsg = join "." (elementsOf (topic packet)) /\
       payload rawMsg = packetPayload packet /\
       subject = (if nonEmpty (subtopic rawMsg)
                  then "channel." ++ channelId ++ "." ++ subtopic rawMsg
                  else "channel." ++ channelId))
  /\
  (forall cfg now xaddErr identify client username passwd value,
     identify (match passwd with Some p => p | None => "" end) = RpcOk value ->
     thingId (fst (authenticate cfg now xaddErr identify client username passwd))
       = value).
Proof.
  split.
  - intros canAccess client packet subject rawMsg Hin.
    destruct (authorizePublish_cases canAccess client packet)
      as [[_ E]|[(ch & _ & _ & E)|[(ch & msg & Hp & _ & Hacc & E)
         |(ch & value & Hp & _ & Hacc & E)]]];
      rewrite E in Hin; simpl in Hin; try contradiction.
    destruct Hin as [Hin|[]]. injection Hin as <- <-.
    exists ch. simpl. repeat (split; [solve [auto]|]).
    apply channelTopicOf_subtopic.
  - intros cfg now xaddErr identify client username passwd value H.
    unfold authenticate. rewrite H. simpl. unfold orString.
    destruct value; reflexivity.
Qed.

Lemma authorizePublish_envelope_witness :
  (exists channelId,
     parseTopic "channels/ch-9/messages/temp/room-1" = Some channelId /\
     "thing-1" = "thing-1" /\
     "mqtt" = "mqtt" /\
     "ch-9" = channelId /\
     "temp.room-1" = join "." (elementsOf "channels/ch-9/messages/temp/room-1") /\
     @nil Byte.byte = [] /\
     "channel.ch-9.temp.room-1" = "channel." ++ channelId ++ "." ++ "temp.room-1")
  /\
  thingId (fst (authenticate (mkConfig "i1" "mainflux.mqtt") 0 None
                  (fun _ => RpcOk "thing-1") (mkClient "" "" None)
                  None (Some "abc"))) = "thing-1".
Proof.
  split.
  - apply (proj1 authorizePublish_envelope (fun _ => RpcOk "thing-1")
             (mkClient "c1" "thing-1" (Some "abc"))
             (mkPacket "publish" 1 "channels/ch-9/messages/temp/room-1" [] false)
             "channel.ch-9.temp.room-1"
             (mkRawMessage "thing-1" "ch-9" "temp.room-1" "mqtt" [])).
    vm_compute. tauto.
  - apply (proj2 authorizePublish_envelope (mkConfig "i1" "mainflux.mqtt") 0%Z None
             (fun _ => RpcOk "thing-1") (mkClient "" "" None) None (Some "abc")
             "thing-1").
    reflexivity.
Defined.

(** ** Bus to MQTT *)

(** C3.  A bus message whose decoded protocol is ["mqtt"] produces no MQTT
    publish; an MQTT publish is produced only for a decoded message whose
    protocol differs from ["mqtt"]. *)
Theorem onBusMessage_loop_suppression :
  forall m : option RawMessage,
    (forall r, m = Some r -> protocol r = "mqtt" -> onBusMessage m = [])
    /\
    (mqttPublishes (onBusMessage m) <> [] ->
     exists r, m = Some r /\ protocol r <> "mqtt").
Proof.
  intros [r|]; split.
  - intros r' [= <-] Hp. unfold onBusMessage. rewrite Hp. reflexivity.
  - unfold onBusMessage. intros H. exists r. split; [reflexivity|].
    intros Hp. rewrite Hp in H. simpl in H. congruence.
  - reflexivity.
  - simpl. congruence.
Qed.

Lemma onBusMessage_loop_suppression_witness :
  onBusMessage (Some (mkRawMessage "thing-1" "ch-1" "alpha" "mqtt" [])) = []
  /\
  exists r, Some (mkRawMessage "thing-1" "ch-1" "alpha" "http" []) = Some r
            /\ protocol r <> "mqtt".
Proof.
  split.
  - apply (proj1 (onBusMessage_loop_suppression
                    (Some (mkRawMessage "thing-1" "ch-1" "alpha" "mqtt" [])))
             (mkRawMessage "thing-1" "ch-1" "alpha" "mqtt" []));
      reflexivity.
  - apply (proj2 (onBusMessage_loop_suppression
                    (Some (mkRawMessage "thing-1" "ch-1" "alpha" "http" [])))).
    vm_compute. discriminate.
Defined.

(** The topic of the packet is [render] of the envelope's channel and
    subtopic. *)
Lemma onBusMessage_render (r : RawMessage) :
  protocol r <> "mqtt" ->
  map topic (mqttPublishes (onBusMessage (Some r)))
    = [render (channel r) (subtopic r)].
Proof.
  intros Hp. unfold onBusMessage.
  destruct (String.eqb (protocol r) "mqtt") eqn:E.
  - apply String.eqb_eq in E. contradiction.
  - reflexivity.
Qed.

(** C9.  A bus message whose decoded protocol is not ["mqtt"] makes the
    adapter publish exactly one MQTT packet: on [channels/{channel}/messages]
    when the subtopic is empty, else on [channels/{channel}/messages/] followed
    by the subtopic with every [.] replaced by [/]; with QoS 2, retain off and
    the payload of the envelope. *)
Theorem onBusMessage_packet :
  forall r : RawMessage,
    protocol r <> "mqtt" ->
    onBusMessage (Some r) =
      [ AedesPublish
          {| cmd := "publish";
             qos := 2;
             topic := if String.eqb (subtopic r) ""
                      then "channels/" ++ channel r ++ "/messages"
                      else "channels/" ++ channel r ++ "/messages/"
                             ++ replaceAll "." "/" (subtopic r);
             packetPayload := payload r;
             retain := false |} ].
Proof.
  intros r Hp. unfold onBusMessage.
  destruct (String.eqb (protocol r) "mqtt") eqn:E.
  - apply String.eqb_eq in E. contradiction.
  - simpl negb. cbv iota. do 3 f_equal.
    destruct (subtopic r) as [|c s]; simpl.
    + reflexivity.
    + reflexivity.
Qed.

Lemma onBusMessage_packet_witness :
  onBusMessage (Some (mkRawMessage "thing-7" "ch-1" "alpha.beta" "http" [])) =
    [ AedesPublish
        (mkPacket "publish" 2 "channels/ch-1/messages/alpha/beta" [] false) ].
Proof.
  apply (onBusMessage_packet (mkRawMessage "thing-7" "ch-1" "alpha.beta" "http" [])).
  vm_compute. discriminate.
Defined.

(** ** Connection events *)

Lemma streamAppends_publishConnEvent cfg now xaddErr id type :
  streamAppends (publishConnEvent cfg now xaddErr id type) =
    [ (event_stream cfg,
       [ RStr "thing_id"; RStr id;
         RStr "timestamp"; RNum (roundDiv now 1000);
         RStr "event_type"; RStr type;
         RStr "instance"; RStr (instance_id cfg) ]) ].
Proof. destruct xaddErr; reflexivity. Qed.

(** [roundDiv now 1000] is the whole number of seconds nearest to [now]
    milliseconds. *)
Lemma roundDiv_nearest_second (now : Z) :
  (1000 * roundDiv now 1000 - 500 <= now < 1000 * roundDiv now 1000 + 500)%Z.
Proof.
  unfold roundDiv.
  pose proof (Z.div_mod (2 * now + 1000) (2 * 1000) ltac:(lia)) as Hdm.
  pose proof (Z.mod_pos_bound (2 * now + 1000) (2 * 1000) ltac:(lia)) as Hb.
  lia.
Qed.

(** C8.  A successful authentication acknowledges the CONNECT and appends
    exactly one record to the configured stream, and a client disconnect
    appends exactly one; the record lists [thing_id], [timestamp],
    [event_type] and [instance] in this order, with the thing id of the
    client, the time in whole seconds, ["connect"] or ["disconnect"], and the
    configured instance id.  A failed authentication appends nothing. *)
Theorem connection_events :
  forall (cfg : Config) (now : Z) (xaddErr : option string),
    (forall identify client username passwd value,
       identify (match passwd with Some p => p | None => "" end) = RpcOk value ->
       In (Acknowledge None true)
          (snd (authenticate cfg now xaddErr identify client username passwd)) /\
       streamAppends
         (snd (authenticate cfg now xaddErr identify client username passwd)) =
         [ (event_stream cfg,
            [ RStr "thing_id"; RStr value;
              RStr "timestamp"; RNum (roundDiv now 1000);
              RStr "event_type"; RStr "connect";
              RStr "instance"; RStr (instance_id cfg) ]) ])
    /\
    (forall identify client username passwd message,
       identify (match passwd with Some p => p | None => "" end) = RpcErr message ->
       streamAppends
         (snd (authenticate cfg now xaddErr identify client username passwd)) = [])
    /\
    (forall client,
       streamAppends (snd (clientDisconnect cfg now xaddErr client)) =
         [ (event_stream cfg,
            [ RStr "thing_id"; RStr (thingId client);
              RStr "timestamp"; RNum (roundDiv now 1000);
              RStr "event_type"; RStr "disconnect";
              RStr "instance"; RStr (instance_id cfg) ]) ])
    /\
    (1000 * roundDiv now 1000 - 500 <= now < 1000 * roundDiv now 1000 + 500)%Z.
Proof.
  intros cfg now xaddErr. repeat split.
  - unfold authenticate. rewrite H. simpl. auto.
  - unfold authenticate. rewrite H.
    cbn [snd streamAppends thingId].
    rewrite streamAppends_publishConnEvent.
    unfold orString. destruct value; reflexivity.
  - intros identify client username passwd message H.
    unfold authenticate. rewrite H. reflexivity.
  - intros client. unfold clientDisconnect.
    cbn [snd streamAppends]. apply streamAppends_publishConnEvent.
  - apply roundDiv_nearest_second.
  - apply roundDiv_nearest_second.
Qed.

Lemma connection_events_witness :
  (In (Acknowledge None true)
      (snd (authenticate (mkConfig "i1" "mainflux.mqtt") 1700000000499 None
              (fun _ => RpcOk "thing-1") (mkClient "" "" None) None (Some "abc")))
   /\
   streamAppends
     (snd (authenticate (mkConfig "i1" "mainflux.mqtt") 1700000000499 None
             (fun _ => RpcOk "thing-1") (mkClient "" "" None) None (Some "abc"))) =
     [ ("mainflux.mqtt",
        [ RStr "thing_id"; RStr "thing-1";
          RStr "timestamp"; RNum 1700000000;
          RStr "event_type"; RStr "connect";
          RStr "instance"; RStr "i1" ]) ])
  /\
  streamAppends
    (snd (authenticate (mkConfig "i1" "mainflux.mqtt") 1700000000499 None
            (fun _ => RpcErr "unknown key") (mkClient "" "" None) None (Some "abc")))
    = [].
Proof.
  pose proof (connection_events (mkConfig "i1" "mainflux.mqtt")
                1700000000499%Z None) as (Hok & Herr & _ & _).
  split.
  - apply (Hok (fun _ => RpcOk "thing-1") (mkClient "" "" None) None (Some "abc")
               "thing-1").
    reflexivity.
  - apply (Herr (fun _ => RpcErr "unknown key") (mkClient "" "" None) None
                (Some "abc") "unknown key").
    reflexivity.
Defined.

(** ** Normalisation of the subtopic *)

(** C10.  Two PUBLISH topics with the same parsed channel id and the same
    elements after normalisation (split on [/], drop the base, join with
    [.], split on [.], drop the empty ones) give the same bus subject and
    the same envelope subtopic; [channels/c/messages/a/b],
    [channels/c/messages/a.b] and [channels/c/messages//a/b/] all go to
    subject [channel.c.a.b] with subtopic [a.b]. *)
Theorem subtopic_normalisation :
  (forall canAccess client p1 p2 channelId,
     parseTopic (topic p1) = Some channelId ->
     parseTopic (topic p2) = Some channelId ->
     elementsOf (topic p1) = elementsOf (topic p2) ->
     map (fun sm => (fst sm, subtopic (snd sm)))
         (busPublishes (authorizePublish canAccess client p1))
     = map (fun sm => (fst sm, subtopic (snd sm)))
         (busPublishes (authorizePublish canAccess client p2)))
  /\
  (forall canAccess client t load value,
     t = "channels/c/messages/a/b" \/ t = "channels/c/messages/a.b"
       \/ t = "channels/c/messages//a/b/" ->
     canAccess {| token := password client; chanID := "c" |} = RpcOk value ->
     map (fun sm => (fst sm, subtopic (snd sm)))
         (busPublishes
            (authorizePublish canAccess client (mkPacket "publish" 0 t load false)))
     = [ ("channel.c.a.b", "a.b") ]).
Proof.
  split.
  - intros canAccess client p1 p2 ch H1 H2 He.
    unfold authorizePublish. rewrite H1, H2, He.
    destruct (existsb invalidElement (elementsOf (topic p2))); [reflexivity|].
    destruct (canAccess {| token := password client; chanID := ch |});
      reflexivity.
  - intros canAccess client t load value Ht Hacc.
    assert (Hp : parseTopic t = Some "c")
      by (destruct Ht as [->|[->| ->]]; reflexivity).
    assert (He : elementsOf t = ["a"; "b"])
      by (destruct Ht as [->|[->| ->]]; reflexivity).
    unfold authorizePublish. cbn [topic]. rewrite Hp, He.
    cbn [existsb invalidElement]. simpl existsb. cbv iota.
    rewrite Hacc. reflexivity.
Qed.

Lemma subtopic_normalisation_witness :
  map (fun sm => (fst sm, subtopic (snd sm)))
      (busPublishes
         (authorizePublish (fun _ => RpcOk "thing-1")
            (mkClient "c1" "thing-1" (Some "abc"))
            (mkPacket "publish" 0 "channels/c/messages/a.b" [] false)))
  = map (fun sm => (fst sm, subtopic (snd sm)))
      (busPublishes
         (authorizePublish (fun _ => RpcOk "thing-1")
            (mkClient "c1" "thing-1" (Some "abc"))
            (mkPacket "publish" 0 "channels/c/messages//a/b/" [] false)))
  /\
  map (fun sm => (fst sm, subtopic (snd sm)))
      (busPublishes
         (authorizePublish (fun _ => RpcOk "thing-1")
            (mkClient "c1" "thing-1" (Some "abc"))
            (mkPacket "publish" 0 "channels/c/messages//a/b/" [] false)))
  = [ ("channel.c.a.b", "a.b") ].
Proof.
  split.
  - apply (proj1 subtopic_normalisation (fun _ => RpcOk "thing-1")
             (mkClient "c1" "thing-1" (Some "abc"))
             (mkPacket "publish" 0 "channels/c/messages/a.b" [] false)
             (mkPacket "publish" 0 "channels/c/messages//a/b/" [] false)
             "c"); reflexivity.
  - apply (proj2 subtopic_normalisation (fun _ => RpcOk "thing-1")
             (mkClient "c1" "thing-1" (Some "abc"))
             "channels/c/messages//a/b/" [] "thing-1").
    + right; right; reflexivity.
    + reflexivity.
Defined.

(** ** Wildcards in the subtopic *)

Lemma invalidElement_true (e : string) :
  invalidElement e = true <->
  1 < String.length e /\ (includes "*" e || includes ">" e) = true.
Proof.
  unfold invalidElement. rewrite andb_true_iff, Nat.ltb_lt. reflexivity.
Qed.

(** C4, as stated, fails: a subtopic that is the single character [*]
    passes the check, and with [CanAccess] succeeding the PUBLISH is
    accepted and published on [channel.c.*]. *)
Lemma wildcard_segment_counterexample :
  ~ (forall canAccess client packet e,
       In e (elementsOf (topic packet)) ->
       (includes "*" e || includes ">" e) = true ->
       In (PublishDone 4) (authorizePublish canAccess client packet) /\
       busPublishes (authorizePublish canAccess client packet) = []).
Proof.
  intros H.
  specialize (H (fun _ => RpcOk "thing-1")
                (mkClient "c1" "thing-1" (Some "abc"))
                (mkPacket "publish" 0 "channels/c/messages/*" [] false)
                "*").
  destruct H as [_ H]; [vm_compute; tauto | reflexivity |].
  vm_compute in H. discriminate.
Qed.

(** C4, amended.  A subtopic element longer than one character that
    contains [*] or [>] makes [authorizePublish] refuse the PUBLISH with
    code 4, without a bus publish; when the topic parses and every element
    containing [*] or [>] is a single character, the check lets the PUBLISH
    through and the answer of [CanAccess] decides. *)
Theorem wildcard_in_longer_segment_refused :
  (forall canAccess client packet e,
     In e (elementsOf (topic packet)) ->
     1 < String.length e ->
     (includes "*" e || includes ">" e) = true ->
     In (PublishDone 4) (authorizePublish canAccess client packet) /\
     ~ In (PublishDone 0) (authorizePublish canAccess client packet) /\
     busPublishes (authorizePublish canAccess client packet) = [])
  /\
  (forall canAccess client packet channelId,
     parseTopic (topic packet) = Some channelId ->
     (forall e, In e (elementsOf (topic packet)) ->
                (includes "*" e || includes ">" e) = true ->
                String.length e = 1) ->
     authorizePublish canAccess client packet =
       ThingsCanAccess {| token := password client; chanID := channelId |}
         :: onAuthorize client packet channelId (elementsOf (topic packet))
              (channelTopicOf channelId (elementsOf (topic packet)))
              (canAccess {| token := password client; chanID := channelId |})).
Proof.
  split.
  - intros canAccess client packet e Hin Hlen Hw.
    assert (Hex : existsb invalidElement (elementsOf (topic packet)) = true).
    { apply existsb_exists. exists e. split; [assumption|].
      apply invalidElement_true. auto. }
    destruct (authorizePublish_cases canAccess client packet)
      as [[_ ->]|[(ch & _ & _ & ->)|[(ch & msg & _ & Hf & _)
         |(ch & value & _ & Hf & _)]]]; try congruence.
    + simpl. repeat split; auto. intros [H|[H|[]]]; discriminate.
    + simpl. repeat split; auto. intros [H|[H|[]]]; discriminate.
  - intros canAccess client packet ch Hp Hall.
    unfold authorizePublish. rewrite Hp.
    destruct (existsb invalidElement (elementsOf (topic packet))) eqn:Hex;
      [|reflexivity].
    apply existsb_exists in Hex. destruct Hex as (e & Hin & Hinv).
    apply invalidElement_true in Hinv. destruct Hinv as [Hlen Hw].
    specialize (Hall e Hin Hw). lia.
Qed.

Lemma wildcard_in_longer_segment_refused_witness :
  (In (PublishDone 4)
      (authorizePublish (fun _ => RpcOk "thing-1")
         (mkClient "c1" "thing-1" (Some "abc"))
         (mkPacket "publish" 0 "channels/ch-1/messages/a*b" [] false)) /\
   ~ In (PublishDone 0)
      (authorizePublish (fun _ => RpcOk "thing-1")
         (mkClient "c1" "thing-1" (Some "abc"))
         (mkPacket "publish" 0 "channels/ch-1/messages/a*b" [] false)) /\
   busPublishes
      (authorizePublish (fun _ => RpcOk "thing-1")
         (mkClient "c1" "thing-1" (Some "abc"))
         (mkPacket "publish" 0 "channels/ch-1/messages/a*b" [] false)) = [])
  /\
  authorizePublish (fun _ => RpcOk "thing-1")
    (mkClient "c1" "thing-1" (Some "abc"))
    (mkPacket "publish" 0 "channels/ch-1/messages/>" [] false) =
    [ ThingsCanAccess {| token := Some "abc"; chanID := "ch-1" |};
      LogInfo "authorized publish" [];
      NatsPublish "channel.ch-1.>"
        (mkRawMessage "thing-1" "ch-1" ">" "mqtt" []);
      PublishDone 0 ].
Proof.
  split.
  - apply (proj1 wildcard_in_longer_segment_refused (fun _ => RpcOk "thing-1")
             (mkClient "c1" "thing-1" (Some "abc"))
             (mkPacket "publish" 0 "channels/ch-1/messages/a*b" [] false)
             "a*b").
    + vm_compute. tauto.
    + vm_compute. lia.
    + reflexivity.
  - apply (proj2 wildcard_in_longer_segment_refused (fun _ => RpcOk "thing-1")
             (mkClient "c1" "thing-1" (Some "abc"))
             (mkPacket "publish" 0 "channels/ch-1/messages/>" [] false)
             "ch-1").
    + reflexivity.
    + intros e [<-|[]] _. reflexivity.
Defined.

(** ** Round trip between topics and (channel, subtopic) pairs *)

(** [parse] is the pair [authorizePublish] works with: the channel it asks
    [CanAccess] about, and the channel and subtopic of the envelope. *)
Lemma authorizePublish_parse canAccess client packet :
  match parse (topic packet) with
  | Some (ch, sub) =>
      exists elements,
        join "." elements = sub /\
        authorizePublish canAccess client packet =
          ThingsCanAccess {| token := password client; chanID := ch |}
            :: onAuthorize client packet ch elements (channelTopicOf ch elements)
                 (canAccess {| token := password client; chanID := ch |})
  | None =>
      authorizePublish canAccess client packet
        = [ LogWarn "unknown topic" []; PublishDone 4 ]
      \/ authorizePublish canAccess client packet
        = [ LogWarn "invalid subtopic" []; PublishDone 4 ]
  end.
Proof.
  unfold parse, authorizePublish.
  destruct (parseTopic (topic packet)) as [ch|]; [|left; reflexivity].
  destruct (existsb invalidElement (elementsOf (topic packet)));
    [right; reflexivity|].
  exists (elementsOf (topic packet)). split; reflexivity.
Qed.

Section RoundTrip.

Lemma existsb_none {A : Type} (f : A -> bool) (l : list A) :
  (forall x, In x l -> f x = false) -> existsb f l = false.
Proof.
  intros H. destruct (existsb f l) eqn:E; [|reflexivity].
  apply existsb_exists in E. destruct E as (x & Hin & Hx).
  rewrite (H x Hin) in Hx. discriminate.
Qed.

Lemma segmentStrict_true (e : string) :
  segmentStrict e = true ->
  nonEmpty e = true /\ includes "." e = false /\ includes "*" e = false /\
  includes ">" e = false /\ includes "/" e = false /\
  noLineTerminator e = true.
Proof.
  unfold segmentStrict, segmentOk.
  rewrite !andb_true_iff, !negb_true_iff. tauto.
Qed.

Lemma channelStrict_true (ch : string) :
  channelStrict ch = true ->
  nonEmpty ch = true /\ includes "/" ch = false /\ includes "." ch = false /\
  noLineTerminator ch = true.
Proof.
  unfold channelStrict, channelOk.
  rewrite !andb_true_iff, !negb_true_iff. tauto.
Qed.

(** [a.join(sep).split(sep)] gives [a] back when no part holds [sep]. *)
Lemma split_join (sep : ascii) (l : list string) :
  l <> [] ->
  Forall (fun x => includes sep x = false) l ->
  split sep (join (String sep "") l) = l.
Proof.
  intros Hne Hall. induction Hall as [|x l Hx Hl IH]; [congruence|].
  destruct l as [|y l'].
  - apply split_without. exact Hx.
  - change (join (String sep "") (x :: y :: l'))
      with (x ++ String sep (join (String sep "") (y :: l'))).
    rewrite split_app_sep by exact Hx.
    rewrite IH by discriminate. reflexivity.
Qed.

Lemma replaceAll_app (c d : ascii) (a b : string) :
  replaceAll c d (a ++ b) = replaceAll c d a ++ replaceAll c d b.
Proof. induction a; simpl; congruence. Qed.

Lemma replaceAll_without (c d : ascii) (s : string) :
  includes c s = false -> replaceAll c d s = s.
Proof.
  induction s as [|x s IH]; simpl; intros H; [reflexivity|].
  apply orb_false_iff in H. destruct H as [Hx Hs].
  rewrite Hx, (IH Hs). reflexivity.
Qed.

Lemma replaceAll_join (c d : ascii) (l : list string) :
  Forall (fun x => includes c x = false) l ->
  replaceAll c d (join (String c "") l) = join (String d "") l.
Proof.
  intros Hall. induction Hall as [|x l Hx Hl IH]; [reflexivity|].
  destruct l as [|y l'].
  - apply replaceAll_without. exact Hx.
  - change (join (String c "") (x :: y :: l'))
      with (x ++ String c (join (String c "") (y :: l'))).
    change (join (String d "") (x :: y :: l'))
      with (x ++ String d (join (String d "") (y :: l'))).
    rewrite replaceAll_app, (replaceAll_without _ _ _ Hx).
    change (replaceAll c d (String c (join (String c "") (y :: l'))))
      with (String (if Ascii.eqb c c then d else c)
              (replaceAll c d (join (String c "") (y :: l')))).
    rewrite Ascii.eqb_refl, IH. reflexivity.
Qed.

Lemma concat_slashed (x : string) (l : list string) :
  String.concat "" (map (fun seg => "/" ++ seg) (x :: l))
  = "/" ++ join "/" (x :: l).
Proof.
  revert x. induction l as [|y l IH]; intros x; [reflexivity|].
  change (String.concat "" (map (fun seg => "/" ++ seg) (x :: y :: l)))
    with (("/" ++ x)
            ++ String.concat "" (map (fun seg => "/" ++ seg) (y :: l))).
  rewrite IH.
  change (join "/" (x :: y :: l)) with (x ++ String "/" (join "/" (y :: l))).
  rewrite append_assoc. reflexivity.
Qed.

(** The pieces of the topic that [render] builds. *)
Lemma split_render (ch sub : string) :
  includes "/" ch = false ->
  includes "/" sub = false ->
  split "/" (render ch sub) =
    "channels" :: ch :: "messages"
      :: (if nonEmpty sub then split "." sub else []).
Proof.
  intros Hch Hsub. unfold render.
  change ("channels/" ++ ch ++ "/messages"
            ++ (if nonEmpty sub then "/" ++ replaceAll "." "/" sub else ""))
    with ("channels" ++ String "/" (ch ++ String "/" ("messages"
            ++ (if nonEmpty sub then "/" ++ replaceAll "." "/" sub else "")))).
  rewrite split_app_sep by reflexivity.
  rewrite split_app_sep by exact Hch.
  destruct (nonEmpty sub).
  - change ("messages" ++ "/" ++ replaceAll "." "/" sub)
      with ("messages" ++ String "/" (replaceAll "." "/" sub)).
    rewrite split_app_sep by reflexivity.
    rewrite split_replaceAll by exact Hsub. reflexivity.
  - reflexivity.
Qed.

Lemma elementsOf_render (ch sub : string) :
  includes "/" ch = false ->
  includes "/" sub = false ->
  elementsOf (render ch sub) = filter isEmpty (segmentsOf sub).
Proof.
  intros Hch Hsub. unfold elementsOf, segmentsOf.
  rewrite split_render by assumption.
  cbn [slice baseLength skipn].
  destruct (nonEmpty sub); [|reflexivity].
  rewrite join_split. reflexivity.
Qed.

Variable ch : string.
Hypothesis Hch : channelStrict ch = true.

Lemma parse_render (sub : string) :
  subtopicStrict sub = true ->
  parse (render ch sub) = Some (ch, sub).
Proof.
  intros Hsub.
  destruct (channelStrict_true _ Hch) as (Hne & Hslash & _ & Hlt).
  unfold subtopicStrict in Hsub.
  assert (Hseg : forall e, In e (segmentsOf sub) -> segmentStrict e = true)
    by (apply forallb_forall; exact Hsub).
  assert (Hs1 : includes "/" sub = false).
  { unfold segmentsOf in Hseg. destruct (nonEmpty sub) eqn:E.
    - rewrite (includes_split_other "/" ".") by reflexivity.
      apply existsb_none. intros e He. apply Hseg, segmentStrict_true in He. tauto.
    - destruct sub; [reflexivity|discriminate]. }
  assert (Hs2 : noLineTerminator sub = true).
  { unfold segmentsOf in Hseg. destruct (nonEmpty sub) eqn:E.
    - unfold noLineTerminator. rewrite (allChars_split _ ".") by reflexivity.
      apply forallb_forall. intros e He.
      apply Hseg, segmentStrict_true in He. tauto.
    - destruct sub; [reflexivity|discriminate]. }
  assert (Hel : elementsOf (render ch sub) = segmentsOf sub).
  { rewrite elementsOf_render by assumption. apply filter_all.
    apply forallb_forall. intros e He.
    apply Hseg, segmentStrict_true in He. unfold isEmpty. tauto. }
  assert (Hpt : parseTopic (render ch sub) = Some ch).
  { unfold render. apply parseTopic_complete; try assumption.
    destruct (nonEmpty sub); [|reflexivity].
    unfold noLineTerminator.
    change (allChars (fun c => negb (isLineTerminator c))
              ("/" ++ replaceAll "." "/" sub))
      with (allChars (fun c => negb (isLineTerminator c))
              (replaceAll "." "/" sub)).
    apply allChars_replaceAll; [reflexivity|exact Hs2]. }
  unfold parse. rewrite Hpt, Hel.
  rewrite existsb_none.
  - do 2 f_equal. unfold segmentsOf. destruct (nonEmpty sub) eqn:E.
    + apply join_split.
    + destruct sub; [reflexivity|discriminate].
  - intros e He. apply Hseg, segmentStrict_true in He.
    unfold invalidElement.
    destruct He as (_ & _ & -> & -> & _). apply andb_false_r.
Qed.

Lemma topicOf_render (segs : list string) :
  forallb segmentStrict segs = true ->
  topicOf ch segs = render ch (join "." segs)
  /\ subtopicStrict (join "." segs) = true.
Proof.
  intros Hsegs.
  assert (Hseg : forall e, In e segs -> segmentStrict e = true)
    by (apply forallb_forall; exact Hsegs).
  destruct segs as [|x l].
  - split; reflexivity.
  - assert (Hx : nonEmpty x = true).
    { specialize (Hseg x (or_introl eq_refl)).
      apply segmentStrict_true in Hseg. tauto. }
    assert (Hdots : Forall (fun e => includes "." e = false) (x :: l)).
    { apply Forall_forall. intros e He.
      apply Hseg, segmentStrict_true in He. tauto. }
    split.
    + unfold topicOf, render.
      rewrite (join_cons_nonEmpty _ _ _ Hx).
      rewrite concat_slashed, (replaceAll_join "." "/") by exact Hdots.
      reflexivity.
    + unfold subtopicStrict, segmentsOf.
      rewrite (join_cons_nonEmpty _ _ _ Hx).
      rewrite split_join by (try discriminate; exact Hdots).
      exact Hsegs.
Qed.

End RoundTrip.

(** C6, as stated, fails: a segment may match [[^.*>]+] and hold a [/]
    (rendering then parsing splits it in two), and a segment or a channel
    id may hold a line terminator (the rendered topic does not parse). *)
Lemma round_trip_counterexample :
  (channelOk "c" = true /\ subtopicOk "a/b" = true /\
   parse (render "c" "a/b") = Some ("c", "a.b") /\
   parse (render "c" "a/b") <> Some ("c", "a/b"))
  /\
  (channelOk "c" = true /\ subtopicOk (String "a" (String LF "b")) = true /\
   parse (render "c" (String "a" (String LF "b"))) = None)
  /\
  (channelOk (String LF "") = true /\ subtopicOk "a" = true /\
   parse (render (String LF "") "a") = None).
Proof.
  repeat split; try reflexivity. vm_compute. discriminate.
Qed.

(** C6, amended.  For a channel id that is not empty and holds no [/], no
    [.] and no line terminator, and a subtopic whose segments match
    [[^.*>]+] and hold no [/] and no line terminator: parsing the rendered
    topic gives the pair back, and the topic
    [channels/{id}/messages/{seg1}/{seg2}/...] built from such segments
    parses to a pair that renders to the same topic. *)
Theorem topic_round_trip :
  (forall ch sub,
     channelStrict ch = true ->
     subtopicStrict sub = true ->
     parse (render ch sub) = Some (ch, sub))
  /\
  (forall ch segs,
     channelStrict ch = true ->
     forallb segmentStrict segs = true ->
     parse (topicOf ch segs) = Some (ch, join "." segs) /\
     render ch (join "." segs) = topicOf ch segs).
Proof.
  split.
  - intros ch sub Hch Hsub. apply parse_render; assumption.
  - intros ch segs Hch Hsegs.
    destruct (topicOf_render ch segs Hsegs) as [-> Hsub].
    split; [apply parse_render; assumption|reflexivity].
Qed.

Lemma topic_round_trip_witness :
  parse (render "ch-9" "temp.room-1") = Some ("ch-9", "temp.room-1")
  /\
  (parse (topicOf "ch-9" ["temp"; "room-1"]) = Some ("ch-9", join "." ["temp"; "room-1"])
   /\ render "ch-9" (join "." ["temp"; "room-1"]) = topicOf "ch-9" ["temp"; "room-1"]).
Proof.
  split.
  - apply (proj1 topic_round_trip "ch-9" "temp.room-1"); reflexivity.
  - apply (proj2 topic_round_trip "ch-9" ["temp"; "room-1"]); reflexivity.
Defined.

(** ** The shape of the accepted topics *)

Lemma topicShape_messagesfoo : ~ topicShape "channels/a/messagesfoo".
Proof.
  intros (ch & rest & Hok & Hrest & Heq).
  unfold channelOk in Hok. rewrite !andb_true_iff, !negb_true_iff in Hok.
  destruct Hok as [[Hne Hslash] _].
  destruct ch as [|c ch]; [discriminate|].
  simpl in Heq. injection Heq as Hc Heq. subst c.
  destruct ch as [|d ch].
  - simpl in Heq. injection Heq as Hr. subst rest.
    destruct Hrest as [H|[r H]]; discriminate.
  - simpl in Heq. injection Heq as Hd _. subst d.
    simpl in Hslash. discriminate.
Qed.

(** C5.  [parseTopic] does not accept exactly the documented shape: it
    accepts [channels/a/messagesfoo], which is neither
    [channels/{id}/messages] nor [channels/{id}/messages/...]; it accepts
    channel parts that hold [.] or [/]; and it rejects a topic of the
    documented shape whose channel id holds a line feed.  What it accepts
    is any [channels/] + non-empty part + [/messages] + anything, free of
    line terminators. *)
Theorem parseTopic_accepts_other_shapes :
  (parseTopic "channels/a/messagesfoo" = Some "a"
   /\ ~ topicShape "channels/a/messagesfoo")
  /\ parseTopic "channels/a.b/messages" = Some "a.b"
  /\ parseTopic "channels/a/b/messages" = Some "a/b"
  /\ (topicShape (String.concat (String LF "") ["channels/a"; "/messages"])
      /\ parseTopic (String.concat (String LF "") ["channels/a"; "/messages"])
         = None)
  /\ (forall topic,
        parseTopic topic <> None <->
        exists x rest,
          topic = "channels/" ++ x ++ "/messages" ++ rest /\
          nonEmpty x = true /\
          noLineTerminator x = true /\
          noLineTerminator rest = true).
Proof.
  split; [split; [reflexivity|apply topicShape_messagesfoo]|].
  split; [reflexivity|]. split; [reflexivity|]. split.
  - split; [|reflexivity].
    exists (String "a" (String LF "")), "". repeat split. left. reflexivity.
  - apply parseTopic_accepts_iff.
Qed.

(** ** The circuit breaker of the NATS publisher *)

Import Nats.

(** On small counts the trip test is: at least three requests, and
    failures at least three fifths of them. *)
Lemma readyToTrip_small_counts :
  forallb
    (fun r =>
       forallb
         (fun f =>
            Bool.eqb (readyToTrip (mkCounts r (r - f) f 0 0))
                     ((3 <=? r)%Z && (3 * r <=? 5 * f)%Z))
         (map Z.of_nat (seq 0 (S (Z.to_nat r)))))
    (map Z.of_nat (seq 0 101))
  = true.
Proof. vm_compute. reflexivity. Qed.

Lemma Publish_ignores_breaker marshal conn cb1 cb2 msg :
  Publish marshal {| nc := conn; cb := cb1 |} msg
  = Publish marshal {| nc := conn; cb := cb2 |} msg.
Proof. reflexivity. Qed.

(** C7.  The trip condition is configured (five failures out of five
    requests satisfy it), but [Publish] does not go through the breaker:
    its result and its call on the connection are the same whatever the
    state of the breaker, a publisher whose breaker is open still calls
    the connection, and six publishes on a connection that always fails
    all reach it and return its error. *)
Theorem Publish_bypasses_breaker :
  readyToTrip (mkCounts 5 0 5 0 5) = true
  /\
  (forall marshal conn cb1 cb2 msg,
     Publish marshal {| nc := conn; cb := cb1 |} msg
     = Publish marshal {| nc := conn; cb := cb2 |} msg)
  /\
  Publish (fun m => inl (payload m))
    {| nc := mkConn (fun _ _ => Some "nats: connection closed");
       cb := {| settings := {| Name := "NATS"; ReadyToTrip := readyToTrip |};
                state := StateOpen;
                counts := mkCounts 5 0 5 0 5 |} |}
    (mkRawMessage "thing-1" "ch-1" "" "ws" [])
  = (Some "nats: connection closed", [NcPublish "channel.ch-1" []])
  /\
  publishAll (fun m => inl (payload m))
    (New (mkConn (fun _ _ => Some "nats: connection closed")))
    (repeat (mkRawMessage "thing-1" "ch-1" "" "ws" []) 6)
  = repeat (Some "nats: connection closed", [NcPublish "channel.ch-1" []]) 6.
Proof.
  split; [vm_compute; reflexivity|].
  split; [intros; apply Publish_ignores_breaker|].
  split; reflexivity.
Qed.

(** * Further properties of the adapter *)

(** ** Authorization of a SUBSCRIBE *)

(** The three ways [authorizeSubscribe] can run. *)
Lemma authorizeSubscribe_cases canAccess client packet :
  (parseTopic (topic packet) = None /\
   authorizeSubscribe canAccess client packet =
     [ LogWarn "unknown topic" []; SubscribeDone (Some 4%Z) packet ])
  \/ (exists channelId message,
        parseTopic (topic packet) = Some channelId /\
        canAccess {| token := password client; chanID := channelId |}
          = RpcErr message /\
        authorizeSubscribe canAccess client packet =
          [ ThingsCanAccess {| token := password client; chanID := channelId |};
            LogWarn "unauthorized subscribe: %s" [message];
            SubscribeDone (Some 4%Z) packet ])
  \/ (exists channelId value,
        parseTopic (topic packet) = Some channelId /\
        canAccess {| token := password client; chanID := channelId |}
          = RpcOk value /\
        authorizeSubscribe canAccess client packet =
          [ ThingsCanAccess {| token := password client; chanID := channelId |};
            LogInfo "authorized subscribe" [];
            SubscribeDone None packet ]).
Proof.
  unfold authorizeSubscribe.
  destruct (parseTopic (topic packet)) as [ch|]; [|left; auto].
  destruct (canAccess {| token := password client; chanID := ch |})
    as [value|message] eqn:Hacc.
  - right; right. exists ch, value. auto.
  - right; left. exists ch, message. auto.
Qed.



(** X2.  Whoever may publish on a topic may subscribe to it: when
    [authorizePublish] accepts a packet, [authorizeSubscribe] grants the
    same client a subscription on the same topic.  The converse fails: a
    topic whose subtopic holds a wildcard inside an element is refused for
    publishing and granted for subscribing. *)
Theorem publish_accepted_subscribe_granted :
  (forall canAccess client packet,
     In (PublishDone 0) (authorizePublish canAccess client packet) ->
     In (SubscribeDone None packet) (authorizeSubscribe canAccess client packet))
  /\
  (exists canAccess client packet,
     In (SubscribeDone None packet) (authorizeSubscribe canAccess client packet)
     /\ ~ In (PublishDone 0) (authorizePublish canAccess client packet)).
Proof.
  split.
  - intros canAccess client packet H.
    destruct (authorizePublish_cases canAccess client packet)
      as [[_ E]|[(ch & _ & _ & E)|[(ch & msg & Hp & _ & Hacc & E)
         |(ch & value & Hp & _ & Hacc & E)]]];
      rewrite E in H; simpl in H.
    + destruct H as [H|[H|[]]]; discriminate.
    + destruct H as [H|[H|[]]]; discriminate.
    + destruct H as [H|[H|[H|[]]]]; discriminate.
    + unfold authorizeSubscribe. rewrite Hp, Hacc. simpl. auto.
  - exists (fun _ => RpcOk "thing-1"), (mkClient "c1" "thing-1" (Some "abc")),
      (mkPacket "publish" 0 "channels/c/messages/a*b" [] false).
    split.
    + vm_compute. tauto.
    + vm_compute. intros [H|[H|[]]]; discriminate.
Qed.

Lemma publish_accepted_subscribe_granted_witness :
  In (SubscribeDone None (mkPacket "publish" 0 "channels/c/messages/a" [] false))
     (authorizeSubscribe (fun _ => RpcOk "thing-1")
        (mkClient "c1" "thing-1" (Some "abc"))
        (mkPacket "publish" 0 "channels/c/messages/a" [] false)).
Proof.
  apply (proj1 publish_accepted_subscribe_granted (fun _ => RpcOk "thing-1")
           (mkClient "c1" "thing-1" (Some "abc"))
           (mkPacket "publish" 0 "channels/c/messages/a" [] false)).
  vm_compute. tauto.
Defined.

(** ** The life of a connection *)

(** X3.  The password presented at CONNECT is the token of every later
    authorization: after a successful [authenticate], each [CanAccess]
    request that [authorizePublish] or [authorizeSubscribe] sends for that
    client carries the presented password (the empty string when the CONNECT
    had none) and the channel id parsed from the packet's topic. *)
Theorem connect_password_is_token :
  forall cfg now xaddErr identify client username passwd value
         canAccess packet req,
    identify (match passwd with Some p => p | None => "" end) = RpcOk value ->
    In (ThingsCanAccess req)
       (authorizePublish canAccess
          (fst (authenticate cfg now xaddErr identify client username passwd))
          packet
        ++ authorizeSubscribe canAccess
             (fst (authenticate cfg now xaddErr identify client username passwd))
             packet)%list ->
    token req = Some (match passwd with Some p => p | None => "" end)
    /\ parseTopic (topic packet) = Some (chanID req).
Proof.
  intros cfg now xaddErr identify client username passwd value
         canAccess packet req Hid Hin.
  assert (Hpw : password
            (fst (authenticate cfg now xaddErr identify client username passwd))
          = Some (match passwd with Some p => p | None => "" end)).
  { unfold authenticate. rewrite Hid. reflexivity. }
  set (c := fst (authenticate cfg now xaddErr identify client username passwd))
    in *.
  apply in_app_or in Hin. destruct Hin as [Hin|Hin].
  - destruct (authorizePublish_cases canAccess c packet)
      as [[_ E]|[(ch & _ & _ & E)|[(ch & msg & Hp & _ & Hacc & E)
         |(ch & v & Hp & _ & Hacc & E)]]];
      rewrite E in Hin; simpl in Hin.
    + destruct Hin as [H|[H|[]]]; discriminate.
    + destruct Hin as [H|[H|[]]]; discriminate.
    + destruct Hin as [H|[H|[H|[]]]]; try discriminate.
      injection H as <-. simpl. auto.
    + destruct Hin as [H|[H|[H|[H|[]]]]]; try discriminate.
      injection H as <-. simpl. auto.
  - destruct (authorizeSubscribe_cases canAccess c packet)
      as [[_ E]|[(ch & msg & Hp & Hacc & E)|(ch & v & Hp & Hacc & E)]];
      rewrite E in Hin; simpl in Hin.
    + destruct Hin as [H|[H|[]]]; discriminate.
    + destruct Hin as [H|[H|[H|[]]]]; try discriminate.
      injection H as <-. simpl. auto.
    + destruct Hin as [H|[H|[H|[]]]]; try discriminate.
      injection H as <-. simpl. auto.
Qed.

Lemma connect_password_is_token_witness :
  token {| token := Some "abc"; chanID := "ch-9" |} = Some "abc"
  /\ parseTopic "channels/ch-9/messages/temp" = Some "ch-9".
Proof.
  apply (connect_password_is_token (mkConfig "i1" "mainflux.mqtt") 0%Z None
           (fun _ => RpcOk "thing-1") (mkClient "" "" None) None (Some "abc")
           "thing-1" (fun _ => RpcErr "denied")
           (mkPacket "publish" 0 "channels/ch-9/messages/temp" [] false)
           {| token := Some "abc"; chanID := "ch-9" |}).
  - reflexivity.
  - vm_compute. tauto.
Defined.

(** X4.  A session leaves a matching pair of records: a successful
    [authenticate] followed by the disconnect of the client it returned
    appends a ["connect"] and then a ["disconnect"] record that carry the same
    thing id (the one the things service answered) and the same instance
    id; and the disconnect wipes the stored password while it keeps the
    client id and the thing id. *)
Theorem session_events_match :
  forall cfg now1 now2 err1 err2 identify client username passwd value,
    identify (match passwd with Some p => p | None => "" end) = RpcOk value ->
    streamAppends
      (snd (authenticate cfg now1 err1 identify client username passwd)
       ++ snd (clientDisconnect cfg now2 err2
                 (fst (authenticate cfg now1 err1 identify client username passwd))))
    = [ (event_stream cfg,
         [ RStr "thing_id"; RStr value;
           RStr "timestamp"; RNum (roundDiv now1 1000);
           RStr "event_type"; RStr "connect";
           RStr "instance"; RStr (instance_id cfg) ]);
        (event_stream cfg,
         [ RStr "thing_id"; RStr value;
           RStr "timestamp"; RNum (roundDiv now2 1000);
           RStr "event_type"; RStr "disconnect";
           RStr "instance"; RStr (instance_id cfg) ]) ]
    /\
    fst (clientDisconnect cfg now2 err2
           (fst (authenticate cfg now1 err1 identify client username passwd)))
    = {| id := if nonEmpty (id client) then id client else value;
         thingId := value;
         password := None |}.
Proof.
  intros cfg now1 now2 err1 err2 identify client username passwd value Hid.
  unfold authenticate. rewrite Hid.
  cbn [fst snd clientDisconnect thingId id].
  assert (Hv : orString value "" = value)
    by (unfold orString; destruct value; reflexivity).
  rewrite !Hv. split.
  - change (streamAppends
              ((ThingsIdentify (match passwd with Some p => p | None => "" end)
                :: Acknowledge None true
                :: publishConnEvent cfg now1 err1 value "connect")
               ++ LogInfo "disconnect client %s" [orString (id client) value]
                  :: publishConnEvent cfg now2 err2 value "disconnect"))
      with (streamAppends
              (publishConnEvent cfg now1 err1 value "connect"
               ++ LogInfo "disconnect client %s" [orString (id client) value]
                  :: publishConnEvent cfg now2 err2 value "disconnect")).
    destruct err1, err2; reflexivity.
  - reflexivity.
Qed.

Lemma session_events_match_witness :
  fst (clientDisconnect (mkConfig "i1" "mainflux.mqtt") 2000 None
         (fst (authenticate (mkConfig "i1" "mainflux.mqtt") 1000 None
                 (fun _ => RpcOk "thing-1") (mkClient "" "" None)
                 None (Some "abc"))))
  = {| id := "thing-1"; thingId := "thing-1"; password := None |}.
Proof.
  apply (proj2 (session_events_match (mkConfig "i1" "mainflux.mqtt")
                  1000%Z 2000%Z None None (fun _ => RpcOk "thing-1")
                  (mkClient "" "" None) None (Some "abc") "thing-1" eq_refl)).
Defined.

(** X5.  A failing event stream does not change what happens to the
    connection: whatever redis answers to the [XADD], [authenticate]
    returns the same client and performs the same effects, followed only
    by one more warning in the log when the append failed; the same holds
    for the disconnect handler. *)
Theorem event_failure_only_logged :
  forall cfg now err identify client username passwd,
    fst (authenticate cfg now (Some err) identify client username passwd)
      = fst (authenticate cfg now None identify client username passwd)
    /\
    (exists extra,
       snd (authenticate cfg now (Some err) identify client username passwd)
       = (snd (authenticate cfg now None identify client username passwd)
          ++ extra)%list
       /\ (extra = [] \/ extra = [ LogWarn "event publish failed: %s" [err] ]))
    /\
    fst (clientDisconnect cfg now (Some err) client)
      = fst (clientDisconnect cfg now None client)
    /\
    snd (clientDisconnect cfg now (Some err) client)
      = (snd (clientDisconnect cfg now None client)
         ++ [ LogWarn "event publish failed: %s" [err] ])%list.
Proof.
  intros cfg now err identify client username passwd.
  unfold authenticate, clientDisconnect.
  destruct (identify (match passwd with Some p => p | None => "" end))
    as [value|message].
  - repeat split.
    exists [ LogWarn "event publish failed: %s" [err] ]. split; [|auto].
    reflexivity.
  - repeat split. exists []. split; [|auto].
    simpl. reflexivity.
Qed.

(** ** No echo through the bridge *)

(** X6.  What the adapter itself puts on the bus never comes back to its MQTT
    clients through the bus handler: every envelope published by
    [authorizePublish] is dropped by [onBusMessage]. *)
Theorem own_envelopes_not_echoed :
  forall canAccess client packet subject rawMsg,
    In (subject, rawMsg)
       (busPublishes (authorizePublish canAccess client packet)) ->
    onBusMessage (Some rawMsg) = [].
Proof.
  intros canAccess client packet subject rawMsg Hin.
  destruct (authorizePublish_cases canAccess client packet)
    as [[_ E]|[(ch & _ & _ & E)|[(ch & msg & Hp & _ & Hacc & E)
       |(ch & value & Hp & _ & Hacc & E)]]];
    rewrite E in Hin; simpl in Hin; try contradiction.
  destruct Hin as [Hin|[]]. injection Hin as _ <-. reflexivity.
Qed.

Lemma own_envelopes_not_echoed_witness :
  onBusMessage
    (Some (mkRawMessage "thing-1" "ch-9" "temp" "mqtt" [])) = [].
Proof.
  apply (own_envelopes_not_echoed (fun _ => RpcOk "thing-1")
           (mkClient "c1" "thing-1" (Some "abc"))
           (mkPacket "publish" 1 "channels/ch-9/messages/temp" [] false)
           "channel.ch-9.temp").
  vm_compute. tauto.
Defined.

(** ** The elements of a subtopic *)

Section Elements.

Lemma allChars_app (p : ascii -> bool) (a b : string) :
  allChars p (a ++ b) = allChars p a && allChars p b.
Proof.
  induction a as [|c a IH]; simpl; [reflexivity|].
  rewrite IH. now rewrite andb_assoc.
Qed.

Lemma split_parts_without (sep : ascii) (s : string) :
  forallb (fun x => negb (includes sep x)) (split sep s) = true.
Proof.
  induction s as [|c s IH]; [reflexivity|].
  simpl split. destruct (Ascii.eqb c sep) eqn:Hc.
  - simpl. exact IH.
  - destruct (split sep s) as [|x xs] eqn:E.
    + exfalso. exact (split_not_nil _ _ E).
    + simpl in *. rewrite Hc. exact IH.
Qed.

Lemma allChars_join (p : ascii -> bool) (sep : ascii) (l : list string) :
  p sep = true ->
  forallb (allChars p) l = true ->
  allChars p (join (String sep "") l) = true.
Proof.
  intros Hsep. induction l as [|x l IH]; [reflexivity|].
  intros H. simpl in H. apply andb_true_iff in H. destruct H as [Hx Hl].
  destruct l as [|y l'].
  - exact Hx.
  - change (join (String sep "") (x :: y :: l'))
      with (x ++ String sep (join (String sep "") (y :: l'))).
    rewrite allChars_app, Hx. simpl. rewrite Hsep. exact (IH Hl).
Qed.

Lemma forallb_skipn {A : Type} (f : A -> bool) (n : nat) (l : list A) :
  forallb f l = true -> forallb f (skipn n l) = true.
Proof.
  revert l. induction n as [|n IH]; intros l H; [exact H|].
  destruct l as [|x l]; [reflexivity|].
  simpl in *. apply andb_true_iff in H. apply IH. tauto.
Qed.

Lemma forallb_filter {A : Type} (f g : A -> bool) (l : list A) :
  forallb f l = true -> forallb f (filter g l) = true.
Proof.
  induction l as [|x l IH]; [reflexivity|].
  simpl. intros H. apply andb_true_iff in H. destruct H as [Hx Hl].
  destruct (g x); simpl; [rewrite Hx|]; auto.
Qed.

(** A property of code units that [.] has passes from the pieces of the
    topic to the elements. *)
Lemma elementsOf_allChars (p : ascii -> bool) (t : string) :
  p "."%char = true ->
  forallb (allChars p) (slice baseLength (split "/" t)) = true ->
  forallb (allChars p) (elementsOf t) = true.
Proof.
  intros Hdot Hparts. unfold elementsOf.
  apply forallb_filter.
  rewrite <- (allChars_split p ".") by exact Hdot.
  apply (allChars_join p "."); assumption.
Qed.

Lemma elementsOf_no_slash (t : string) :
  forallb (fun e => negb (includes "/" e)) (elementsOf t) = true.
Proof.
  assert (H : forallb (allChars (fun x => negb (Ascii.eqb x "/"))) (elementsOf t)
              = true).
  { apply elementsOf_allChars; [reflexivity|].
    unfold slice. apply forallb_skipn.
    pose proof (split_parts_without "/" t) as Hs.
    rewrite forallb_forall in *. intros x Hx. specialize (Hs x Hx).
    rewrite includes_allChars, negb_involutive in Hs. exact Hs. }
  rewrite forallb_forall in *. intros x Hx.
  rewrite includes_allChars, negb_involutive. auto.
Qed.

Lemma elementsOf_no_dot (t : string) :
  forallb (fun e => negb (includes "." e)) (elementsOf t) = true.
Proof.
  unfold elementsOf. apply forallb_filter. apply split_parts_without.
Qed.

Lemma split_app_any (sep : ascii) (a b : string) :
  split sep (a ++ String sep b) = (split sep a ++ split sep b)%list.
Proof.
  induction a as [|c a IH]; simpl.
  - rewrite Ascii.eqb_refl. reflexivity.
  - destruct (Ascii.eqb c sep); rewrite IH; [reflexivity|].
    destruct (split sep a) as [|x xs] eqn:E.
    + exfalso. exact (split_not_nil _ _ E).
    + reflexivity.
Qed.

End Elements.

(** X7.  Every element of the subtopic that [authorizePublish] works with is
    a non-empty string without [/] and without [.], whatever the topic. *)
Theorem elements_well_formed :
  forall (t e : string),
    In e (elementsOf t) ->
    nonEmpty e = true /\ includes "/" e = false /\ includes "." e = false.
Proof.
  intros t e Hin.
  pose proof (elementsOf_nonEmpty t) as H1.
  pose proof (elementsOf_no_slash t) as H2.
  pose proof (elementsOf_no_dot t) as H3.
  rewrite forallb_forall in H1, H2, H3.
  specialize (H1 e Hin). specialize (H2 e Hin). specialize (H3 e Hin).
  rewrite negb_true_iff in H2, H3. auto.
Qed.

Lemma elements_well_formed_witness :
  nonEmpty "a" = true /\ includes "/" "a" = false /\ includes "." "a" = false.
Proof.
  apply (elements_well_formed "channels/c/messages//a/b/" "a").
  vm_compute. tauto.
Defined.

(** X8.  The subject of a bus publish, cut at its dots, is [channel], the
    channel id and then the elements of the subtopic, in order, when the
    channel id holds no dot: the subtopic never adds an empty token and
    never shifts the channel token. *)
Theorem subject_tokens :
  forall canAccess client packet subject rawMsg,
    In (subject, rawMsg)
       (busPublishes (authorizePublish canAccess client packet)) ->
    includes "." (channel rawMsg) = false ->
    split "." subject
      = "channel" :: channel rawMsg :: elementsOf (topic packet).
Proof.
  intros canAccess client packet subject rawMsg Hin Hdot.
  destruct (authorizePublish_cases canAccess client packet)
    as [[_ E]|[(ch & _ & _ & E)|[(ch & msg & Hp & _ & Hacc & E)
       |(ch & value & Hp & _ & Hacc & E)]]];
    rewrite E in Hin; simpl in Hin; try contradiction.
  destruct Hin as [Hin|[]]. injection Hin as <- <-. simpl in Hdot.
  unfold channelTopicOf.
  change ("channel." ++ ch) with ("channel" ++ String "." ch).
  pose proof (elementsOf_no_dot (topic packet)) as Hnd.
  destruct (elementsOf (topic packet)) as [|e es] eqn:Hel.
  - rewrite split_app_sep by reflexivity.
    rewrite split_without by exact Hdot. reflexivity.
  - rewrite append_assoc.
    change ("channel" ++ String "." ch ++ "." ++ join "." (e :: es))
      with ("channel" ++ String "." (ch ++ String "." (join "." (e :: es)))).
    rewrite split_app_sep by reflexivity.
    rewrite split_app_sep by exact Hdot.
    rewrite split_join; [reflexivity|discriminate|].
    apply Forall_forall. intros x Hx.
    rewrite forallb_forall in Hnd. specialize (Hnd x Hx).
    now rewrite negb_true_iff in Hnd.
Qed.

Lemma subject_tokens_witness :
  split "." "channel.c.a.b"
    = "channel" :: "c" :: elementsOf "channels/c/messages//a/b/".
Proof.
  apply (subject_tokens (fun _ => RpcOk "thing-1")
           (mkClient "c1" "thing-1" (Some "abc"))
           (mkPacket "publish" 0 "channels/c/messages//a/b/" [] false)
           "channel.c.a.b" (mkRawMessage "thing-1" "c" "a.b" "mqtt" [])).
  - vm_compute. tauto.
  - reflexivity.
Defined.

(** ** Normalisation is idempotent *)

Section Idempotence.

Lemma includes_join_other (c sep : ascii) (l : list string) :
  Ascii.eqb sep c = false ->
  forallb (fun e => negb (includes c e)) l = true ->
  includes c (join (String sep "") l) = false.
Proof.
  intros Hne Hl. rewrite includes_allChars. apply negb_false_iff.
  apply allChars_join; [now rewrite Hne|].
  rewrite forallb_forall in *. intros x Hx. specialize (Hl x Hx).
  rewrite includes_allChars, negb_involutive in Hl. exact Hl.
Qed.

Lemma segmentsOf_join (els : list string) :
  forallb nonEmpty els = true ->
  forallb (fun e => negb (includes "." e)) els = true ->
  segmentsOf (join "." els) = els.
Proof.
  intros Hne Hnd. destruct els as [|x l]; [reflexivity|].
  simpl in Hne. apply andb_true_iff in Hne. destruct Hne as [Hx _].
  unfold segmentsOf. rewrite (join_cons_nonEmpty _ _ _ Hx).
  apply split_join; [discriminate|].
  apply Forall_forall. intros e He.
  rewrite forallb_forall in Hnd. specialize (Hnd e He).
  now rewrite negb_true_iff in Hnd.
Qed.

(** Rendering then parsing gives the pair back as soon as the elements
    are what [authorizePublish] can produce. *)
Lemma parse_render_elements (ch : string) (els : list string) :
  nonEmpty ch = true ->
  includes "/" ch = false ->
  noLineTerminator ch = true ->
  forallb nonEmpty els = true ->
  forallb (fun e => negb (includes "/" e)) els = true ->
  forallb (fun e => negb (includes "." e)) els = true ->
  forallb noLineTerminator els = true ->
  existsb invalidElement els = false ->
  parse (render ch (join "." els)) = Some (ch, join "." els).
Proof.
  intros Hne Hslash Hlt Hels Hes Hed Helt Hinv.
  assert (Hs1 : includes "/" (join "." els) = false)
    by (apply includes_join_other; [reflexivity|exact Hes]).
  assert (Hs2 : noLineTerminator (join "." els) = true)
    by (apply (allChars_join _ "."); [reflexivity|exact Helt]).
  assert (Hel : elementsOf (render ch (join "." els)) = els).
  { rewrite elementsOf_render by assumption.
    rewrite segmentsOf_join by assumption.
    apply filter_all. exact Hels. }
  assert (Hpt : parseTopic (render ch (join "." els)) = Some ch).
  { unfold render. apply parseTopic_complete; try assumption.
    destruct (nonEmpty (join "." els)); [|reflexivity].
    unfold noLineTerminator.
    change (allChars (fun c => negb (isLineTerminator c))
              ("/" ++ replaceAll "." "/" (join "." els)))
      with (allChars (fun c => negb (isLineTerminator c))
              (replaceAll "." "/" (join "." els))).
    apply allChars_replaceAll; [reflexivity|exact Hs2]. }
  unfold parse. rewrite Hpt, Hel, Hinv. reflexivity.
Qed.

Lemma elementsOf_noLineTerminator (t : string) :
  noLineTerminator t = true ->
  forallb noLineTerminator (elementsOf t) = true.
Proof.
  intros Ht. apply elementsOf_allChars; [reflexivity|].
  unfold slice. apply forallb_skipn.
  rewrite <- (allChars_split _ "/") by reflexivity. exact Ht.
Qed.

End Idempotence.

(** X9.  A topic that [authorizePublish] accepts is put in a normal form by
    one pass: if a topic parses to a channel id without [/] and a
    subtopic, the topic the bus handler renders from that pair parses to
    the same pair.  A message that went out on the bus and is published
    again from its rendered topic therefore keeps its channel and its
    subtopic. *)
Theorem normalisation_idempotent :
  forall (t ch sub : string),
    parse t = Some (ch, sub) ->
    includes "/" ch = false ->
    parse (render ch sub) = Some (ch, sub).
Proof.
  intros t ch sub Hparse Hslash. unfold parse in Hparse.
  destruct (parseTopic t) as [c|] eqn:Hpt; [|discriminate].
  destruct (existsb invalidElement (elementsOf t)) eqn:Hinv; [discriminate|].
  injection Hparse as -> <-.
  apply parseTopic_sound in Hpt.
  destruct Hpt as (rest & Ht & Hne & Hlt & Hrest).
  assert (Htl : noLineTerminator t = true).
  { rewrite Ht. unfold noLineTerminator in *.
    rewrite !allChars_app, Hlt, Hrest. reflexivity. }
  apply parse_render_elements; try assumption.
  - apply elementsOf_nonEmpty.
  - apply elementsOf_no_slash.
  - apply elementsOf_no_dot.
  - apply elementsOf_noLineTerminator. exact Htl.
Qed.

Lemma normalisation_idempotent_witness :
  parse (render "c" "a.b") = Some ("c", "a.b").
Proof.
  apply (normalisation_idempotent "channels/c/messages//a.b/" "c" "a.b");
    reflexivity.
Defined.

(** ** One subject space for the two adapters *)

(** X10.  The MQTT adapter publishes every envelope on the subject that the
    WebSocket adapter computes for the envelope's channel and subtopic:
    [fmtSubject] (Go) and the subject built in [authorizePublish]
    (JavaScript) agree. *)
Theorem mqtt_subject_is_fmtSubject :
  forall canAccess client packet subject rawMsg,
    In (subject, rawMsg)
       (busPublishes (authorizePublish canAccess client packet)) ->
    subject = fmtSubject (channel rawMsg) (subtopic rawMsg).
Proof.
  intros canAccess client packet subject rawMsg Hin.
  destruct (authorizePublish_cases canAccess client packet)
    as [[_ E]|[(ch & _ & _ & E)|[(ch & msg & Hp & _ & Hacc & E)
       |(ch & value & Hp & _ & Hacc & E)]]];
    rewrite E in Hin; simpl in Hin; try contradiction.
  destruct Hin as [Hin|[]]. injection Hin as <- <-.
  cbn [channel subtopic]. rewrite channelTopicOf_subtopic.
  unfold fmtSubject, prefix.
  destruct (nonEmpty (join "." (elementsOf (topic packet)))).
  - rewrite !append_assoc. reflexivity.
  - reflexivity.
Qed.

Lemma mqtt_subject_is_fmtSubject_witness :
  "channel.ch-9.temp.room-1" = fmtSubject "ch-9" "temp.room-1".
Proof.
  apply (mqtt_subject_is_fmtSubject (fun _ => RpcOk "thing-1")
           (mkClient "c1" "thing-1" (Some "abc"))
           (mkPacket "publish" 1 "channels/ch-9/messages/temp/room-1" [] false)
           "channel.ch-9.temp.room-1"
           (mkRawMessage "thing-1" "ch-9" "temp.room-1" "mqtt" [])).
  vm_compute. tauto.
Defined.

Lemma append_dot_cancel (a b s t : string) :
  includes "." a = false ->
  includes "." b = false ->
  (s = "" \/ exists s', s = String "." s') ->
  (t = "" \/ exists t', t = String "." t') ->
  a ++ s = b ++ t ->
  a = b /\ s = t.
Proof.
  revert b. induction a as [|c a IH]; intros b Ha Hb Hs Ht Heq.
  - destruct b as [|d b]; [simpl in Heq; auto|].
    simpl in Heq, Hb. apply orb_false_iff in Hb. destruct Hb as [Hd _].
    destruct Hs as [->|[s' ->]]; [discriminate|].
    injection Heq as <- _. discriminate.
  - simpl in Ha. apply orb_false_iff in Ha. destruct Ha as [Hc Ha].
    destruct b as [|d b].
    + simpl in Heq.
      destruct Ht as [->|[t' ->]]; [discriminate|].
      injection Heq as -> _. discriminate.
    + simpl in Heq, Hb. apply orb_false_iff in Hb. destruct Hb as [_ Hb].
      injection Heq as -> Heq.
      destruct (IH b Ha Hb Hs Ht Heq) as [-> ->]. auto.
Qed.

(** X11.  Distinct (channel, subtopic) pairs never share a subject as long as
    channel ids hold no dot; with a dot in a channel id they can:
    channel [a.b] without subtopic and channel [a] with subtopic [b] both
    give [channel.a.b]. *)
Theorem fmtSubject_injective :
  (forall ch1 sub1 ch2 sub2,
     includes "." ch1 = false ->
     includes "." ch2 = false ->
     fmtSubject ch1 sub1 = fmtSubject ch2 sub2 ->
     ch1 = ch2 /\ sub1 = sub2)
  /\ fmtSubject "a.b" "" = fmtSubject "a" "b".
Proof.
  split; [|reflexivity].
  intros ch1 sub1 ch2 sub2 H1 H2 Heq.
  assert (Hshape : forall ch sub,
            fmtSubject ch sub
            = "channel." ++ ch ++ (if nonEmpty sub then String "." sub else "")).
  { intros ch sub. unfold fmtSubject, prefix.
    destruct (nonEmpty sub).
    - rewrite !append_assoc. reflexivity.
    - simpl. f_equal. f_equal. f_equal. f_equal. f_equal. f_equal. f_equal.
      f_equal. induction ch; simpl; congruence. }
  rewrite !Hshape in Heq. simpl in Heq.
  injection Heq as Heq.
  apply append_dot_cancel in Heq; try assumption.
  - destruct Heq as [-> Hs]. split; [reflexivity|].
    destruct sub1, sub2; simpl in Hs; congruence.
  - destruct (nonEmpty sub1); eauto.
  - destruct (nonEmpty sub2); eauto.
Qed.

Lemma fmtSubject_injective_witness :
  "ch-1" = "ch-1" /\ "a.b" = "a.b".
Proof.
  apply (proj1 fmtSubject_injective "ch-1" "a.b" "ch-1" "a.b"); reflexivity.
Defined.

(** ** Publishing and subscribing over NATS (WebSocket adapter) *)

(** X12.  What [Publish] sends is what a subscriber of the same channel and
    subtopic gets: the one call on the connection uses the subject that
    [Subscribe] registers for the message's channel and subtopic, and the
    subscription callback forwards the message, provided the codec reads
    back what it wrote.  A marshalling error makes [Publish] return it
    without touching the connection; a nil message or bytes that do not
    unmarshal are dropped by the callback without a word. *)
Theorem publish_reaches_subscriber :
  forall (marshal : RawMessage -> bytes + string)
         (unmarshal : bytes -> RawMessage + string)
         (pubsub : natsPubSub) (msg : RawMessage),
    (forall data,
       marshal msg = inl data ->
       unmarshal data = inl msg ->
       snd (Publish marshal pubsub msg)
         = [ NcPublish
               (fst (NatsSubscribe.Subscribe unmarshal (channel msg) (subtopic msg)))
               data ]
       /\ snd (NatsSubscribe.Subscribe unmarshal (channel msg) (subtopic msg))
            (Some data)
          = [ NatsSubscribe.ChannelSend msg ])
    /\
    (forall err,
       marshal msg = inr err ->
       Publish marshal pubsub msg = (Some err, []))
    /\
    NatsSubscribe.onMsg unmarshal None = []
    /\
    (forall data err,
       unmarshal data = inr err ->
       NatsSubscribe.onMsg unmarshal (Some data) = []).
Proof.
  intros marshal unmarshal pubsub msg. repeat split.
  - unfold Publish. rewrite H. reflexivity.
  - unfold NatsSubscribe.Subscribe, NatsSubscribe.onMsg. simpl.
    rewrite H0. reflexivity.
  - intros err H. unfold Publish. rewrite H. reflexivity.
  - intros data err H. unfold NatsSubscribe.onMsg. rewrite H. reflexivity.
Qed.

Lemma publish_reaches_subscriber_witness :
  (snd (Publish (fun m => inl (payload m))
          (New (mkConn (fun _ _ => None)))
          (mkRawMessage "" "ch-1" "" "" []))
   = [ NcPublish
         (fst (NatsSubscribe.Subscribe
                 (fun d => inl (mkRawMessage "" "ch-1" "" "" d)) "ch-1" ""))
         [] ]
   /\ snd (NatsSubscribe.Subscribe
             (fun d => inl (mkRawMessage "" "ch-1" "" "" d)) "ch-1" "")
          (Some [])
      = [ NatsSubscribe.ChannelSend (mkRawMessage "" "ch-1" "" "" []) ])
  /\
  NatsSubscribe.onMsg (fun _ => inr "bad wire") (Some []) = [].
Proof.
  pose proof (publish_reaches_subscriber (fun m => inl (payload m))
                (fun d => inl (mkRawMessage "" "ch-1" "" "" d))
                (New (mkConn (fun _ _ => None)))
                (mkRawMessage "" "ch-1" "" "" [])) as (Hok & _ & _ & _).
  pose proof (publish_reaches_subscriber (fun m => inl (payload m))
                (fun _ => inr "bad wire")
                (New (mkConn (fun _ _ => None)))
                (mkRawMessage "" "ch-1" "" "" [])) as (_ & _ & _ & Hbad).
  split.
  - apply (Hok []); reflexivity.
  - apply (Hbad [] "bad wire"). reflexivity.
Defined.

(** ** The message writer *)

Module WritersFacts.
Import Writers.

Lemma findChannel_In (chs : list string) (channel : string) :
  findChannel chs channel = true <-> In channel chs.
Proof.
  induction chs as [|ch rest IH]; simpl.
  - split; [discriminate|contradiction].
  - destruct (String.eqb ch channel) eqn:E.
    + apply String.eqb_eq in E. tauto.
    + apply String.eqb_neq in E. rewrite IH. tauto.
Qed.

(** X13.  A channel is accepted exactly when it is listed, or when the list
    is the single entry [*]; a [*] among other entries is no wildcard. *)
Theorem channelExists_iff :
  forall (c : consumer) (channel : string),
    channelExists c channel = true <->
    channels c = ["*"] \/ In channel (channels c).
Proof.
  intros [chs] channel. unfold channelExists. simpl.
  destruct chs as [|first [|second rest]].
  - simpl. split; [discriminate|intros [H|[]]; discriminate].
  - destruct (String.eqb first "*") eqn:E.
    + apply String.eqb_eq in E. subst first. tauto.
    + apply String.eqb_neq in E. rewrite findChannel_In.
      split; [tauto|]. intros [H|H]; [congruence|exact H].
  - rewrite findChannel_In. split; [tauto|].
    intros [H|H]; [discriminate|exact H].
Qed.

(** X14.  [consume] hands a message to the repository exactly when the bytes
    unmarshal and the channel of the message is accepted, and then once;
    a failure of the repository is only logged.  With an empty channel
    list nothing is ever saved. *)
Theorem consume_saves :
  forall unmarshal save (c : consumer) (data : bytes),
    (forall msg,
       unmarshal data = inl msg ->
       savedMessages (consume unmarshal save c data)
       = if channelExists c (Channel msg) then [msg] else [])
    /\
    (forall err,
       unmarshal data = inr err ->
       savedMessages (consume unmarshal save c data) = [])
    /\
    (channels c = [] ->
     savedMessages (consume unmarshal save c data) = []).
Proof.
  intros unmarshal save c data. unfold consume. repeat split.
  - intros msg H. rewrite H.
    destruct (channelExists c (Channel msg)); simpl; [|reflexivity].
    destruct (save msg); reflexivity.
  - intros err H. rewrite H. reflexivity.
  - intros Hc. destruct (unmarshal data) as [msg|err]; [|reflexivity].
    unfold channelExists. rewrite Hc. reflexivity.
Qed.

Lemma consume_saves_witness :
  savedMessages
    (consume (fun _ => inl (mkMessage "ch-1" "" "" "" "" "" None None
                            S754_nan S754_nan ""))
             (fun _ => Some "db down") (mkConsumer ["ch-1"; "*"]) [])
  = [ mkMessage "ch-1" "" "" "" "" "" None None S754_nan S754_nan "" ]
  /\
  savedMessages
    (consume (fun _ => inr "bad wire") (fun _ => None) (mkConsumer ["*"]) [])
  = []
  /\
  savedMessages
    (consume (fun _ => inl (mkMessage "ch-1" "" "" "" "" "" None None
                            S754_nan S754_nan ""))
             (fun _ => None) (mkConsumer []) [])
  = [].
Proof.
  split; [|split].
  - apply (proj1 (consume_saves
                    (fun _ => inl (mkMessage "ch-1" "" "" "" "" "" None None
                                     S754_nan S754_nan ""))
                    (fun _ => Some "db down") (mkConsumer ["ch-1"; "*"]) [])
             (mkMessage "ch-1" "" "" "" "" "" None None S754_nan S754_nan "")).
    reflexivity.
  - apply (proj1 (proj2 (consume_saves (fun _ => inr "bad wire")
                           (fun _ => None) (mkConsumer ["*"]) []))
             "bad wire").
    reflexivity.
  - apply (proj2 (proj2 (consume_saves
                           (fun _ => inl (mkMessage "ch-1" "" "" "" "" "" None None
                                            S754_nan S754_nan ""))
                           (fun _ => None) (mkConsumer []) []))).
    reflexivity.
Defined.

Lemma channelExists_iff_witness :
  channelExists (mkConsumer ["*"]) "ch-7" = true
  /\ channelExists (mkConsumer ["*"; "ch-1"]) "ch-7" = false.
Proof.
  split.
  - apply (proj2 (channelExists_iff (mkConsumer ["*"]) "ch-7")).
    left. reflexivity.
  - destruct (channelExists (mkConsumer ["*"; "ch-1"]) "ch-7") eqn:E;
      [|reflexivity].
    apply (proj1 (channelExists_iff (mkConsumer ["*"; "ch-1"]) "ch-7")) in E.
    simpl in E. destruct E as [E|[E|[E|[]]]]; discriminate.
Defined.

End WritersFacts.

(** ** The Cassandra reader *)

Module CassandraFacts.
Import Writers Cassandra.

Lemma countChar_app (c : ascii) (a b : string) :
  countChar c (a ++ b) = countChar c a + countChar c b.
Proof.
  induction a as [|d a IH]; simpl; [reflexivity|]. rewrite IH. lia.
Qed.

Lemma isColumn_no_placeholder (name : string) :
  isColumn name = true -> countChar "?" name = 0.
Proof.
  unfold isColumn. rewrite !orb_true_iff, !String.eqb_eq.
  intros [[[[->| ->]| ->]| ->]| ->]; reflexivity.
Qed.

Lemma rangeQuery_count (query : list (string * string)) :
  forall condSql values,
    countChar "?" (fst (rangeQuery query condSql values)) + length values
    = countChar "?" condSql + length (snd (rangeQuery query condSql values)).
Proof.
  induction query as [|[name value] rest IH]; intros condSql values;
    [reflexivity|].
  simpl. destruct (isColumn name) eqn:E; [|apply IH].
  specialize (IH (condSql ++ " AND " ++ name ++ " = ?")
                 (values ++ [ArgString value])%list).
  rewrite !countChar_app, (isColumn_no_placeholder _ E), length_app in IH.
  simpl in IH. lia.
Qed.

(** X15.  The statement has exactly as many [?] placeholders as [buildQuery]
    returns values to bind, whatever the filter map holds and in whatever
    order the map is walked. *)
Theorem buildQuery_placeholders :
  forall chanID offset limit query,
    countChar "?" (fst (buildQuery chanID offset limit query))
    = length (snd (buildQuery chanID offset limit query)).
Proof.
  intros chanID offset limit query. unfold buildQuery.
  pose proof (rangeQuery_count query "" [ArgString chanID]) as H.
  destruct (rangeQuery query "" [ArgString chanID]) as [condSql values].
  simpl in H. cbn [fst snd].
  rewrite !countChar_app, length_app.
  change (countChar "?" cqlHead) with 1.
  change (countChar "?" cqlTail) with 1.
  simpl length. lia.
Qed.





Lemma skipRows_skipn (n : nat) (rows : list Row) :
  skipRows n rows = skipn n rows.
Proof.
  revert rows. induction n as [|n IH]; intros [|r rows]; simpl; auto.
Qed.

(** X17.  [ReadAll] returns the page that starts [offset] rows into the
    matching rows and holds at most [limit] of them, in order, when the
    store honours the [LIMIT] it is given and [offset + limit] fits 64
    bits; when closing the iterator fails, the page is empty whatever
    was read. *)
Theorem ReadAll_page :
  forall runQuery table chanID offset limit query,
    (0 <= offset)%Z -> (0 <= limit)%Z -> (offset + limit < 2 ^ 64)%Z ->
    runQuery (fst (buildQuery chanID offset limit query))
             (snd (buildQuery chanID offset limit query))
      = firstn (Z.to_nat (addUint64 offset limit)) table ->
    ReadAll runQuery None chanID offset limit query
      = map scanRow (firstn (Z.to_nat limit) (skipn (Z.to_nat offset) table))
    /\ length (ReadAll runQuery None chanID offset limit query)
       <= Z.to_nat limit
    /\ forall err, ReadAll runQuery (Some err) chanID offset limit query = [].
Proof.
  intros runQuery table chanID offset limit query Ho Hl Hfit Hrun.
  unfold ReadAll.
  destruct (buildQuery chanID offset limit query) as [cql values].
  simpl in Hrun. rewrite Hrun, skipRows_skipn.
  unfold addUint64. rewrite Z.mod_small by lia.
  rewrite skipn_firstn_comm.
  replace (Z.to_nat (offset + limit) - Z.to_nat offset)
    with (Z.to_nat limit) by lia.
  split; [reflexivity|]. split; [|reflexivity].
  rewrite length_map. apply firstn_le_length.
Qed.

Lemma ReadAll_page_witness :
  ReadAll (fun _ _ => firstn 3 [ mkRow "c" "" "p1" "" "" "" None None None None None
                                   S754_nan S754_nan "";
                                 mkRow "c" "" "p2" "" "" "" None None None None None
                                   S754_nan S754_nan "";
                                 mkRow "c" "" "p3" "" "" "" None None None None None
                                   S754_nan S754_nan "";
                                 mkRow "c" "" "p4" "" "" "" None None None None None
                                   S754_nan S754_nan "" ])
    None "c" 1 2 []
  = map scanRow
      [ mkRow "c" "" "p2" "" "" "" None None None None None S754_nan S754_nan "";
        mkRow "c" "" "p3" "" "" "" None None None None None S754_nan S754_nan "" ].
Proof.
  apply (proj1 (ReadAll_page
                  (fun _ _ => firstn 3 _)
                  [ mkRow "c" "" "p1" "" "" "" None None None None None
                      S754_nan S754_nan "";
                    mkRow "c" "" "p2" "" "" "" None None None None None
                      S754_nan S754_nan "";
                    mkRow "c" "" "p3" "" "" "" None None None None None
                      S754_nan S754_nan "";
                    mkRow "c" "" "p4" "" "" "" None None None None None
                      S754_nan S754_nan "" ]
                  "c" 1%Z 2%Z [] ltac:(lia) ltac:(lia) ltac:(lia) eq_refl)).
Defined.

(** X18.  When [offset + limit] does not fit 64 bits the sum wraps, the
    [LIMIT] falls below the offset, and the page is empty although rows
    may match: the reader skips more rows than it asked for. *)
Theorem ReadAll_wraps :
  forall runQuery table closeErr chanID offset limit query,
    (0 <= offset < 2 ^ 64)%Z -> (0 <= limit < 2 ^ 64)%Z ->
    (2 ^ 64 <= offset + limit)%Z ->
    runQuery (fst (buildQuery chanID offset limit query))
             (snd (buildQuery chanID offset limit query))
      = firstn (Z.to_nat (addUint64 offset limit)) table ->
    ReadAll runQuery closeErr chanID offset limit query = [].
Proof.
  intros runQuery table closeErr chanID offset limit query Ho Hl Hwrap Hrun.
  unfold ReadAll.
  destruct (buildQuery chanID offset limit query) as [cql values].
  simpl in Hrun. rewrite Hrun, skipRows_skipn.
  assert (Hsum : addUint64 offset limit = (offset + limit - 2 ^ 64)%Z).
  { unfold addUint64.
    rewrite <- (Z.mod_add _ (-1)) by lia.
    rewrite Z.mod_small; lia. }
  rewrite Hsum, skipn_all2.
  - destruct closeErr; reflexivity.
  - etransitivity; [apply firstn_le_length|]. lia.
Qed.

Lemma ReadAll_wraps_witness :
  ReadAll (fun _ _ => firstn 0 [ mkRow "c" "" "p1" "" "" "" None None None None None
                                   S754_nan S754_nan "" ])
    None "c" 1 (2 ^ 64 - 1) []
  = [].
Proof.
  apply (ReadAll_wraps (fun _ _ => firstn 0 _)
           [ mkRow "c" "" "p1" "" "" "" None None None None None
               S754_nan S754_nan "" ]
           None "c" 1%Z (2 ^ 64 - 1)%Z []); try lia.
  reflexivity.
Defined.

End CassandraFacts.

(** ** The HTTP endpoints of the things service *)

Module ThingsHttpFacts.
Import ThingsHttp.

(** X19.  Removing is idempotent towards the client and never reaches the
    service with a request that failed validation: both remove endpoints
    answer success without a service call when validation says "not
    found", pass any other validation error on without a service call,
    and otherwise make exactly one service call and pass its error on.
    The two endpoints, written differently, agree on the answer. *)
Theorem remove_endpoints :
  forall validate remove req,
    fst (removeThingEndpoint validate remove req)
      = fst (removeChannelEndpoint validate remove req)
    /\
    (validate req = Some ErrNotFound ->
     removeThingEndpoint validate remove req = ((Some tt, None), [])
     /\ removeChannelEndpoint validate remove req = ((Some tt, None), []))
    /\
    (forall msg,
       validate req = Some (ErrOther msg) ->
       removeThingEndpoint validate remove req
         = ((None, Some (ErrOther msg)), [])
       /\ removeChannelEndpoint validate remove req
         = ((None, Some (ErrOther msg)), []))
    /\
    (validate req = None ->
     snd (removeThingEndpoint validate remove req)
       = [CallRemoveThing (vkey req) (vid req)]
     /\ snd (removeChannelEndpoint validate remove req)
       = [CallRemoveChannel (vkey req) (vid req)]
     /\ snd (fst (removeThingEndpoint validate remove req))
       = remove (vkey req) (vid req)).
Proof.
  intros validate remove req.
  unfold removeThingEndpoint, removeChannelEndpoint.
  destruct (validate req) as [[|msg]|].
  - split; [reflexivity|]. split; [auto|].
    split; [intros m H; discriminate|intros H; discriminate].
  - split; [reflexivity|]. split; [intros H; discriminate|].
    split; [intros m [= <-]; auto|intros H; discriminate].
  - split; [destruct (remove (vkey req) (vid req)); reflexivity|].
    split; [intros H; discriminate|].
    split; [intros m H; discriminate|].
    intros _. destruct (remove (vkey req) (vid req)); auto.
Qed.

Lemma remove_endpoints_witness :
  removeThingEndpoint (fun _ => Some ErrNotFound) (fun _ _ => Some (ErrOther "boom"))
    (mkViewResourceReq "key" "")
  = ((Some tt, None), [])
  /\ removeChannelEndpoint (fun _ => Some ErrNotFound)
       (fun _ _ => Some (ErrOther "boom")) (mkViewResourceReq "key" "")
  = ((Some tt, None), []).
Proof.
  apply (proj1 (proj2 (remove_endpoints (fun _ => Some ErrNotFound)
                         (fun _ _ => Some (ErrOther "boom"))
                         (mkViewResourceReq "key" "")))).
  reflexivity.
Defined.

Lemma appendViews_map (things : list Thing) :
  forall acc,
    appendViews things acc
    = (acc ++ map (fun thing =>
                     mkViewThingRes (ID thing) (Owner thing) (Name thing)
                                    (Key thing) (Metadata thing))
                  things)%list.
Proof.
  induction things as [|thing rest IH]; intros acc; simpl.
  - now rewrite app_nil_r.
  - rewrite IH, <- app_assoc. reflexivity.
Qed.

(** X20.  Listing neither drops, adds nor reorders: on success the response
    holds one view per thing of the page the service returned, in the
    same order and with the same id, owner, name, key and metadata, and
    repeats the page's total, offset and limit; a request that fails
    validation is answered with that error and never reaches the
    service, and a service error is passed on. *)
Theorem listThingsEndpoint_page :
  forall validate list req,
    (forall page,
       validate req = None ->
       list (lkey req) (loffset req) (llimit req) = inl page ->
       listThingsEndpoint validate list req
       = ((Some {| resTotal := Total page;
                   resOffset := Offset page;
                   resLimit := Limit page;
                   resThings :=
                     map (fun thing =>
                            mkViewThingRes (ID thing) (Owner thing) (Name thing)
                                           (Key thing) (Metadata thing))
                         (Things page) |}, None),
          [CallListThings (lkey req) (loffset req) (llimit req)]))
    /\
    (forall err,
       validate req = Some err ->
       listThingsEndpoint validate list req = ((None, Some err), []))
    /\
    (forall err,
       validate req = None ->
       list (lkey req) (loffset req) (llimit req) = inr err ->
       fst (listThingsEndpoint validate list req) = (None, Some err)).
Proof.
  intros validate list req. unfold listThingsEndpoint. repeat split.
  - intros page Hv Hl. rewrite Hv, Hl, appendViews_map. reflexivity.
  - intros err Hv. rewrite Hv. reflexivity.
  - intros err Hv Hl. rewrite Hv, Hl. reflexivity.
Qed.

Lemma listThingsEndpoint_page_witness :
  listThingsEndpoint (fun _ => None)
    (fun _ _ _ => inl (mkThingsPage 2 0 10
                         [ mkThing "1" "o" "a" "k1" ""; mkThing "2" "o" "b" "k2" "" ]))
    (mkListResourcesReq "key" 0 10)
  = ((Some (mkThingsPageRes 2 0 10
              [ mkViewThingRes "1" "o" "a" "k1" "";
                mkViewThingRes "2" "o" "b" "k2" "" ]), None),
     [CallListThings "key" 0 10])
  /\
  listThingsEndpoint (fun _ => Some (ErrOther "malformed"))
    (fun _ _ _ => inr ErrNotFound) (mkListResourcesReq "" 0 10)
  = ((None, Some (ErrOther "malformed")), []).
Proof.
  split.
  - apply (proj1 (listThingsEndpoint_page (fun _ => None)
                    (fun _ _ _ => inl (mkThingsPage 2 0 10
                                         [ mkThing "1" "o" "a" "k1" "";
                                           mkThing "2" "o" "b" "k2" "" ]))
                    (mkListResourcesReq "key" 0 10))
             (mkThingsPage 2 0 10
                [ mkThing "1" "o" "a" "k1" ""; mkThing "2" "o" "b" "k2" "" ]));
      reflexivity.
  - apply (proj1 (proj2 (listThingsEndpoint_page
                           (fun _ => Some (ErrOther "malformed"))
                           (fun _ _ _ => inr ErrNotFound)
                           (mkListResourcesReq "" 0 10)))
             (ErrOther "malformed")).
    reflexivity.
Defined.

End ThingsHttpFacts.

(** ** The connection page of the UI *)

Module UiFacts.
Import Ui.

Section Pages.
Variable paths : Paths.
Variable checkEntity : string -> list string -> list string.




End Pages.



End UiFacts.

(** ** The channel id is the shortest candidate *)

Lemma length_append (a b : string) :
  String.length (a ++ b) = String.length a + String.length b.
Proof. induction a; simpl; congruence. Qed.

Lemma plusL_shortest (s : string) :
  forall acc ch,
    plusL Dot afterGroup (Recording acc) s = Some (Captured (acc ++ ch)) ->
    forall x r,
      nonEmpty x = true ->
      noLineTerminator r = true ->
      s = x ++ "/messages" ++ r ->
      String.length ch <= String.length x.
Proof.
  induction s as [|c s IH]; intros acc ch H x r Hx Hr Hs; [discriminate|].
  destruct x as [|c' x']; [discriminate|].
  simpl in Hs. injection Hs as <- Hs.
  rewrite plusL_cons in H. simpl matchAtom in H.
  destruct (isLineTerminator c) eqn:Hc; [discriminate|].
  simpl negb in H. cbv iota in H. simpl record in H.
  destruct (afterGroup (Recording (acc ++ String c "")) s) as [g'|] eqn:E.
  - unfold orElse in H. injection H as ->.
    rewrite afterGroup_spec in E.
    destruct (stripPrefix "/messages" s) as [rest|]; [|discriminate].
    destruct (noLineTerminator rest); [|discriminate].
    injection E as E.
    assert (Hlen : String.length (acc ++ String c "") = String.length (acc ++ ch))
      by (rewrite E; reflexivity).
    rewrite !length_append in Hlen. simpl in *. lia.
  - unfold orElse in H.
    destruct x' as [|d x''].
    + assert (Hs' : s = "/messages" ++ r) by exact Hs.
      rewrite afterGroup_spec, Hs' in E.
      rewrite (stripPrefix_app "/messages" r), Hr in E. discriminate.
    + pose proof (plusL_sound _ _ _ H) as (ch' & rest & _ & _ & _ & _ & Hg).
      injection Hg as Hg.
      assert (Hch : String.length ch = S (String.length ch')).
      { assert (Hl : String.length (acc ++ ch)
                     = String.length ((acc ++ String c "") ++ ch'))
          by (rewrite Hg; reflexivity).
        rewrite !length_append in Hl. simpl in Hl. lia. }
      rewrite Hg in H.
      specialize (IH _ _ H (String d x'') r eq_refl Hr Hs).
      simpl in *. lia.
Qed.

(** X22.  [parseTopic] takes as channel id the shortest non-empty string that
    stands between [channels/] and some [/messages]: a topic it accepts
    reads [channels/] + id + [/messages] + rest, free of line
    terminators, and no other way of cutting the topic at a [/messages]
    gives a shorter id.  (So [channels/a/messages/b/messages] is channel
    [a], and the id never holds [/messages] after its first character.) *)
Theorem parseTopic_shortest :
  forall topic ch,
    parseTopic topic = Some ch ->
    (exists rest,
       topic = "channels/" ++ ch ++ "/messages" ++ rest /\
       nonEmpty ch = true /\
       noLineTerminator ch = true /\
       noLineTerminator rest = true)
    /\
    (forall x r,
       nonEmpty x = true ->
       topic = "channels/" ++ x ++ "/messages" ++ r ->
       String.length ch <= String.length x).
Proof.
  intros topic ch H. split; [apply parseTopic_sound; exact H|].
  intros x r Hx Ht.
  pose proof (parseTopic_sound _ _ H) as (rest & Ht' & _ & Hlt & Hrest).
  assert (Hr : noLineTerminator r = true).
  { assert (Hall : noLineTerminator topic = true).
    { rewrite Ht'. unfold noLineTerminator in *.
      rewrite !allChars_app, Hlt, Hrest. reflexivity. }
    rewrite Ht in Hall. unfold noLineTerminator in *.
    rewrite !allChars_app in Hall.
    repeat (apply andb_true_iff in Hall; destruct Hall as [? Hall]).
    exact Hall. }
  rewrite parseTopic_unfold in H. subst topic.
  rewrite stripPrefix_app in H.
  destruct (plusL Dot afterGroup (Recording "") (x ++ "/messages" ++ r))
    as [g|] eqn:E; [|discriminate].
  pose proof (plusL_sound _ _ _ E) as (ch' & rest' & _ & _ & _ & _ & ->).
  simpl in H. injection H as ->.
  apply (plusL_shortest _ "" ch E x r Hx Hr eq_refl).
Qed.

Lemma parseTopic_shortest_witness :
  (exists rest,
     "channels/a/messages/b/messages" = "channels/" ++ "a" ++ "/messages" ++ rest /\
     nonEmpty "a" = true /\
     noLineTerminator "a" = true /\
     noLineTerminator rest = true)
  /\
  (forall x r,
     nonEmpty x = true ->
     "channels/a/messages/b/messages" = "channels/" ++ x ++ "/messages" ++ r ->
     String.length "a" <= String.length x).
Proof.
  apply (parseTopic_shortest "channels/a/messages/b/messages" "a").
  reflexivity.
Defined.

(** ** The trip test of the breaker *)

(** X23.  While there are at most 100 requests, the [ReadyToTrip] closure
    that [New] configures, computed on binary64 as the code does, is true
    exactly when there are at least three requests and the failures are
    at least three fifths of them; the other counters play no part. *)
Theorem readyToTrip_threshold :
  forall requests failures successes consSuccesses consFailures,
    (0 <= failures <= requests)%Z ->
    (requests <= 100)%Z ->
    readyToTrip
      (mkCounts requests successes failures consSuccesses consFailures)
    = ((3 <=? requests)%Z && (3 * requests <=? 5 * failures)%Z).
Proof.
  intros r f s cs cf Hf Hr.
  pose proof readyToTrip_small_counts as H.
  rewrite forallb_forall in H.
  assert (Hin : In r (map Z.of_nat (seq 0 101))).
  { apply in_map_iff. exists (Z.to_nat r). split; [lia|].
    apply in_seq. lia. }
  specialize (H r Hin). rewrite forallb_forall in H.
  assert (Hinf : In f (map Z.of_nat (seq 0 (S (Z.to_nat r))))).
  { apply in_map_iff. exists (Z.to_nat f). split; [lia|].
    apply in_seq. lia. }
  specialize (H f Hinf). apply Bool.eqb_prop in H.
  rewrite <- H. reflexivity.
Qed.

Lemma readyToTrip_threshold_witness :
  readyToTrip (mkCounts 5 2 3 0 1) = true.
Proof.
  apply (readyToTrip_threshold 5 3 2 0 1); lia.
Defined.
